(** * Ground-truth encoding of [process_dataset.py]

    A shallow embedding of [process_overlap], [compute_gt] and [main] of
    [process_dataset.py], and the properties of the anchor matching
    procedure and of the files it writes.

    Conventions of the embedding.
    - Python floats (overlap scores, the cells of the [float32] array) are
      exact rationals [Qc]; the order and the equality of finite floats are
      those of the rationals they denote.  NaN and rounding are not modelled.
    - A numpy array of shape [(vheight, vwidth)] is a list of rows.
    - A raised Python exception is the [Raise] branch of [result]. *)

From Stdlib Require Import ZArith QArith Qcanon Ascii String List Lia.
From stdpp Require Import gmap strings list fin_maps numbers.

Local Open Scope string_scope.
Local Open Scope list_scope.

(** ** Exceptions and the error monad *)

Inductive exn_class :=
  | ImportError | ModuleNotFoundError
  | AttributeError
  | RuntimeError | NotImplementedError
  | IndexError | KeyError | ValueError | OSError.

Global Instance exn_class_eq_dec : EqDecision exn_class.
Proof. solve_decision. Defined.

Record exn := mk_exn { exn_cls : exn_class; exn_msg : string }.

Inductive result (A : Type) :=
  | Ok (a : A)
  | Raise (e : exn).
Arguments Ok {A} a.
Arguments Raise {A} e.

Global Instance result_ret : MRet result := @Ok.
Global Instance result_bind : MBind result := fun A B k r =>
  match r with
  | Ok a => k a
  | Raise e => Raise e
  end.

Definition is_ok {A} (r : result A) : Prop :=
  match r with Ok _ => True | Raise _ => False end.

(** [for x in xs: body], threading the mutated state. *)
Fixpoint for_each {A S} (xs : list A) (body : A -> S -> result S) (st : S)
  : result S :=
  match xs with
  | [] => Ok st
  | x :: rest => st' ← body x st; for_each rest body st'
  end.

(** ** Data model *)

(** Modelled from the spec: the named tuples [Size], [Box], [Sample],
    [Anchor], [Score] and [Overlap] are declared in [utils] and [ssdutils],
    which are not part of the sources.  The fields the code reads
    ([filename], [boxes], [label], [labelid], [idx], [score], [best],
    [good]) keep their names; the geometry is the spec's "center, width,
    height". *)
Record Size := mk_Size { w : Z; h : Z }.

Record Box := mk_Box {
  label : string;
  labelid : Z;
  center : Qc * Qc;
  extent : Qc * Qc
}.

Record Sample := mk_Sample {
  filename : string;
  boxes : list Box;
  imgsize : Size
}.

Record Anchor := mk_Anchor {
  acenter : Qc * Qc;
  awidth : Qc;
  aheight : Qc
}.

Record Preset := mk_Preset { preset_name : string; preset_size : Size }.

Record Score := mk_Score { idx : nat; score : Qc }.

Record Overlap := mk_Overlap { best : Score; good : list Score }.

Global Instance Size_eq_dec : EqDecision Size.
Proof. solve_decision. Defined.
Global Instance Box_eq_dec : EqDecision Box.
Proof. solve_decision. Defined.
Global Instance Score_eq_dec : EqDecision Score.
Proof. solve_decision. Defined.
Global Instance Sample_eq_dec : EqDecision Sample.
Proof. solve_decision. Defined.

(** The four location offsets written after the one-hot segment. *)
Record Loc := mk_Loc { loc0 : Qc; loc1 : Qc; loc2 : Qc; loc3 : Qc }.

Definition loc_cells (l : Loc) : list Qc := [loc0 l; loc1 l; loc2 l; loc3 l].

(** The functions imported from [ssdutils]; their code is not part of the
    sources, so they are taken as an interface. *)
Class SsdUtils := {
  compute_location : Box -> Anchor -> Loc;
  compute_overlap : list Qc -> list (list Qc) -> Qc -> Overlap;
  anchors2array : list Anchor -> Size -> list (list Qc);
  box2array : Box -> Size -> list Qc;
  get_preset_by_name : string -> Preset;
  get_anchors_for_preset : Preset -> list Anchor
}.

(** ** The target vector *)

Abbreviation Vec := (list (list Qc)).

Definition index_error : exn := mk_exn IndexError "index out of bounds".
Definition value_error : exn := mk_exn ValueError "could not broadcast".
Definition key_error : exn := mk_exn KeyError "key".

(** [np.zeros((vheight, vwidth))] *)
Definition np_zeros (vheight vwidth : nat) : Vec :=
  replicate vheight (replicate vwidth 0%Qc).

(** [vec[:, c] = x] for a column [c] inside the array. *)
Definition set_column (c : nat) (x : Qc) (vec : Vec) : Vec :=
  (fun row => <[c := x]> row) <$> vec.

(** [row[0:n] = x]: a slice assignment clamps to the row's width. *)
Definition fill_prefix (n : nat) (x : Qc) (row : list Qc) : list Qc :=
  replicate (min n (length row)) x ++ drop n row.

(** [row[j] = x] for a Python integer [j]: a negative index counts from the
    end, an index outside [-width, width) raises IndexError. *)
Definition py_index (width : nat) (j : Z) : option nat :=
  if bool_decide (0 <= j < Z.of_nat width)%Z then Some (Z.to_nat j)
  else if bool_decide (- Z.of_nat width <= j < 0)%Z
       then Some (Z.to_nat (Z.of_nat width + j))
       else None.

Definition set_cell (j : Z) (x : Qc) (row : list Qc) : result (list Qc) :=
  match py_index (length row) j with
  | Some k => Ok (<[k := x]> row)
  | None => Raise index_error
  end.

(** [row[n:] = cells]: the slice [n:] must have as many cells as the
    assigned array, else numpy raises ValueError. *)
Definition set_suffix (n : nat) (cells : list Qc) (row : list Qc)
  : result (list Qc) :=
  if bool_decide (length (drop n row) = length cells)
  then Ok (take n row ++ cells)
  else Raise value_error.

(** ** Paths, files and the observable effects *)

(** ASCII white space, as removed by [str.strip()]; the names [main]
    passes are ASCII, other white space is not modelled. *)
Definition is_space (c : ascii) : bool :=
  let n := nat_of_ascii c in
  (Nat.leb 9 n && Nat.leb n 13) || (Nat.leb 28 n && Nat.leb n 32).

Fixpoint lstrip (s : string) : string :=
  match s with
  | EmptyString => EmptyString
  | String c rest => if is_space c then lstrip rest else s
  end.

Definition strip (s : string) : string :=
  String.rev (lstrip (String.rev (lstrip s))).

Fixpoint has_slash (s : string) : bool :=
  match s with
  | EmptyString => false
  | String c rest => bool_decide (c = "/"%char) || has_slash rest
  end.

(** [os.path.basename]: what follows the last slash. *)
Fixpoint basename (s : string) : string :=
  match s with
  | EmptyString => EmptyString
  | String c rest =>
      if bool_decide (c = "/"%char) || has_slash rest then basename rest
      else s
  end.

Abbreviation Color := (Z * Z * Z)%type.

(** Modelled from the spec: an image is known by the file it was read from
    and the outlines drawn on it since ([cv2] and [draw_box] are not part of
    the sources). *)
Record Img := mk_Img { img_src : string; drawn : list (Box * Color) }.

Record TrainingData := mk_TrainingData {
  td_preset : Preset;
  td_num_classes : nat;
  td_colors : gmap string Color;
  td_lid2name : gmap Z string;
  td_lname2id : gmap string Z
}.

Inductive file :=
  | NpyFile (vec : Vec)
  | SamplesPkl (sample_list : list (Sample * string))
  | TrainingDataPkl (data : TrainingData)
  | ImageFile (img : Img).

Inductive pyval :=
  | VStr (s : string)
  | VInt (n : Z)
  | VFloat (x : Qc)
  | VBool (b : bool).

Inductive event :=
  | Print (args : list pyval)
  | MakeDirs (path : string)
  | NpSave (path : string) (vec : Vec)
  | PickleDump (path : string) (obj : file)
  | ImWrite (path : string) (img : Img).

(** The directories and files on disk, and the effects performed so far,
    oldest first. *)
Record World := mk_World {
  dirs : gset string;
  files : gmap string file;
  trace : list event
}.

Definition print (args : list pyval) (wd : World) : World :=
  mk_World (dirs wd) (files wd) (trace wd ++ [Print args]).

Definition path_exists (path : string) (wd : World) : bool :=
  bool_decide (path ∈ dirs wd) || bool_decide (is_Some (files wd !! path)).

(** [os.makedirs] where it succeeds: the call is recorded and the directory
    named exists afterwards.  The parents it creates on the way and its
    failures (FileExistsError for a path that exists) are not modelled. *)
Definition makedirs (path : string) (wd : World) : World :=
  mk_World ({[path]} ∪ dirs wd) (files wd) (trace wd ++ [MakeDirs path]).

Definition np_save (path : string) (vec : Vec) (wd : World) : World :=
  mk_World (dirs wd) (<[path := NpyFile vec]> (files wd))
           (trace wd ++ [NpSave path vec]).

Definition pickle_dump (path : string) (obj : file) (wd : World) : World :=
  mk_World (dirs wd) (<[path := obj]> (files wd))
           (trace wd ++ [PickleDump path obj]).

Definition imwrite (path : string) (img : Img) (wd : World) : World :=
  mk_World (dirs wd) (<[path := ImageFile img]> (files wd))
           (trace wd ++ [ImWrite path img]).

(** ** [process_overlap] *)

(** The dictionary [overlaps], keyed by the boxes themselves. *)
Abbreviation OverlapDict := (list (Box * Overlap)).

(** The match table and the array, as mutated by [process_overlap]. *)
Abbreviation EncState := (gmap nat Qc * Vec)%type.

Section Encoder.
Context `{SsdUtils}.

(** Lines 61-63: the three assignments to the row of the matched anchor. *)
Definition write_row (box : Box) (anchor : Anchor) (num_classes : nat)
    (row : list Qc) : result (list Qc) :=
  let row := fill_prefix (num_classes + 1) 0%Qc row in
  row ← set_cell (labelid box) 1%Qc row;
  set_suffix (num_classes + 1) (loc_cells (compute_location box anchor)) row.

Definition process_overlap (overlap : Score) (box : Box) (anchor : Anchor)
    (matches : gmap nat Qc) (num_classes : nat) (vec : Vec)
  : result (gmap nat Qc * Vec) :=
  let skip :=
    match matches !! idx overlap with
    | Some s => bool_decide (score overlap ≤ s)%Qc
    | None => false
    end in
  if skip then Ok (matches, vec)
  else
    let matches := <[idx overlap := score overlap]> matches in
    match vec !! idx overlap with
    | None => Raise index_error
    | Some row =>
        row ← write_row box anchor num_classes row;
        Ok (matches, <[idx overlap := row]> vec)
    end.

(** ** [compute_gt]: the encoding of one sample *)

(** [img_size = Size(1000, 1000)] and the threshold [0.5]. *)
Definition img_size : Size := mk_Size 1000 1000.
Definition threshold : Qc := Q2Qc (1 # 2).

Fixpoint dict_set (k : Box) (v : Overlap) (d : OverlapDict) : OverlapDict :=
  match d with
  | [] => [(k, v)]
  | (k', v') :: rest =>
      if bool_decide (k' = k) then (k', v) :: rest
      else (k', v') :: dict_set k v rest
  end.

Fixpoint dict_get (d : OverlapDict) (k : Box) : result Overlap :=
  match d with
  | [] => Raise key_error
  | (k', v') :: rest => if bool_decide (k' = k) then Ok v' else dict_get rest k
  end.

(** [anchors[i]] on a Python list. *)
Definition list_get (anchors : list Anchor) (i : nat) : result Anchor :=
  match anchors !! i with
  | Some a => Ok a
  | None => Raise index_error
  end.

(** Lines 91-94: the overlaps of every box of the sample. *)
Definition compute_overlaps (anchors_arr : list (list Qc)) (bs : list Box)
  : OverlapDict :=
  foldl (fun overlaps box =>
           let box_arr := box2array box img_size in
           dict_set box (compute_overlap box_arr anchors_arr threshold)
                    overlaps)
        [] bs.

(** Lines 85 and 100-104: the array before any match. *)
Definition init_vec (vheight num_classes : nat) : Vec :=
  let vwidth := num_classes + 5 in
  let vec := np_zeros vheight vwidth in
  let vec := set_column num_classes 1%Qc vec in
  let vec := set_column (num_classes + 1) 0%Qc vec in
  let vec := set_column (num_classes + 2) 0%Qc vec in
  let vec := set_column (num_classes + 3) 0%Qc vec in
  set_column (num_classes + 4) 0%Qc vec.

(** Lines 107-111: the pass over the good matches. *)
Definition good_pass (anchors : list Anchor) (num_classes : nat)
    (overlaps : OverlapDict) (bs : list Box) (st : EncState)
  : result EncState :=
  for_each bs (fun box st =>
    ov ← dict_get overlaps box;
    for_each (good ov) (fun overlap '(matches, vec) =>
      anchor ← list_get anchors (idx overlap);
      process_overlap overlap box anchor matches num_classes vec) st) st.

(** Lines 114-117: the pass over the best matches. *)
Definition best_pass (anchors : list Anchor) (num_classes : nat)
    (overlaps : OverlapDict) (bs : list Box) (st : EncState)
  : result EncState :=
  for_each bs (fun box '(matches, vec) =>
    ov ← dict_get overlaps box;
    let overlap := best ov in
    anchor ← list_get anchors (idx overlap);
    process_overlap overlap box anchor matches num_classes vec) st.

(** Lines 85-117, the body of the loop over the samples up to the save:
    the target vector of one sample. *)
Definition encode_sample (anchors : list Anchor)
    (anchors_arr : list (list Qc)) (num_classes : nat) (sample : Sample)
  : result Vec :=
  let vheight := length anchors in
  let overlaps := compute_overlaps anchors_arr (boxes sample) in
  let vec := init_vec vheight num_classes in
  '(_, vec) ← good_pass anchors num_classes overlaps (boxes sample) (∅, vec);
  '(_, vec) ← best_pass anchors num_classes overlaps (boxes sample) (∅, vec);
  Ok vec.

(** ** [compute_gt] *)

Definition gt_dir (data_dir name : string) : string :=
  data_dir +:+ "/ground_truth/" +:+ strip name +:+ "/".

(** Line 122: the file the vector of a sample is saved to. *)
Definition gt_path (data_dir name : string) (sample : Sample) : string :=
  gt_dir data_dir name +:+ basename (filename sample) +:+ ".npy".

Definition samples_pkl (data_dir name : string) : string :=
  data_dir +:+ "/" +:+ strip name +:+ "-samples.pkl".

Definition compute_gt (data_dir : string) (samples : list Sample)
    (anchors : list Anchor) (num_classes : nat) (name : string) (wd : World)
  : result World :=
  let result_dir := data_dir +:+ "/ground_truth/" +:+ strip name +:+ "/" in
  let wd := if path_exists result_dir wd then wd else makedirs result_dir wd in
  let anchors_arr := anchors2array anchors img_size in
  '(wd, sample_list) ←
    for_each samples (fun sample '(wd, sample_list) =>
      vec ← encode_sample anchors anchors_arr num_classes sample;
      let gt_fn := result_dir +:+ basename (filename sample) +:+ ".npy" in
      let wd := np_save gt_fn vec wd in
      Ok (wd, sample_list ++ [(sample, gt_fn)])) (wd, []);
  Ok (pickle_dump (data_dir +:+ "/" +:+ strip name +:+ "-samples.pkl")
        (SamplesPkl sample_list) wd).

(** ** [annotate] *)

(** [cv2.imread] where it succeeds: the image is the one of the file named.
    For a file that cannot be read it yields None and the drawing or the
    write fails; such a run is not modelled. *)
Definition annotate (data_dir : string) (samples : list Sample)
    (colors : gmap string Color) (sample_name : string) (wd : World)
  : result World :=
  let result_dir := data_dir +:+ "/annotated/" +:+ strip sample_name +:+ "/" in
  let wd := if path_exists result_dir wd then wd else makedirs result_dir wd in
  for_each samples (fun sample wd =>
    let img := mk_Img (filename sample) [] in
    let basefn := basename (filename sample) in
    img ← for_each (boxes sample) (fun box img =>
            match colors !! label box with
            | Some c => Ok (mk_Img (img_src img) (drawn img ++ [(box, c)]))
            | None => Raise key_error
            end) img;
    Ok (imwrite (result_dir +:+ basefn) img wd)) wd.

(** ** [main] *)

(** The parsed command line. *)
Record Args := mk_Args {
  args_data_source : string;
  args_data_dir : string;
  args_validation_fraction : Qc;
  args_annotate : bool;
  args_compute_gt : bool;
  args_preset : string
}.

(** Modelled from the spec: the data source object of the plug-in contract
    ([utils.load_data_source] and the source modules are not part of the
    sources). *)
Record Source := mk_Source {
  num_train : nat;
  num_valid : nat;
  num_test : nat;
  num_classes : nat;
  train_samples : list Sample;
  valid_samples : list Sample;
  test_samples : list Sample;
  colors : gmap string Color;
  lid2name : gmap Z string;
  lname2id : gmap string Z
}.

Class DataSource := {
  load_data_source : string -> result Source;
  load_trainval_data : Source -> string -> Qc -> result Source;
  load_test_data : Source -> string -> result Source
}.

Context `{DataSource}.

(** [issubclass] on the exception classes of the model. *)
Definition subclass (c base : exn_class) : bool :=
  bool_decide (c = base) ||
  match c, base with
  | ModuleNotFoundError, ImportError => true
  | NotImplementedError, RuntimeError => true
  | _, _ => false
  end.

(** [except (ImportError, AttributeError, RuntimeError)] *)
Definition caught (e : exn) : bool :=
  subclass (exn_cls e) ImportError ||
  subclass (exn_cls e) AttributeError ||
  subclass (exn_cls e) RuntimeError.

(** Lines 165-167, the calls inside the [try] block that can raise. *)
Definition load_source (args : Args) : result Source :=
  source ← load_data_source (args_data_source args);
  source ← load_trainval_data source (args_data_dir args)
             (args_validation_fraction args);
  load_test_data source (args_data_dir args).

(** Lines 153-163: what is printed before the data source is loaded. *)
Definition banner (args : Args) (wd : World) : World :=
  let wd := print [VStr "[i] Data source:          ";
                   VStr (args_data_source args)] wd in
  let wd := print [VStr "[i] Data directory:       ";
                   VStr (args_data_dir args)] wd in
  let wd := print [VStr "[i] Validation fraction:  ";
                   VFloat (args_validation_fraction args)] wd in
  let wd := print [VStr "[i] Annotate:             ";
                   VBool (args_annotate args)] wd in
  let wd := print [VStr "[i] Compute ground truth: ";
                   VBool (args_compute_gt args)] wd in
  let wd := print [VStr "[i] Preset:               ";
                   VStr (args_preset args)] wd in
  print [VStr "[i] Configuring the data source..."] wd.

(** The result is the world and the value [main] returns, or the exception
    that leaves it. *)
Definition main (args : Args) (wd : World) : result (World * Z) :=
  let wd := banner args wd in
  match load_source args with
  | Raise e =>
      if caught e
      then Ok (print [VStr "[!] Unable to load data source:";
                      VStr (exn_msg e)] wd, 1%Z)
      else Raise e
  | Ok source =>
      let wd := print [VStr "[i] # training samples:   ";
                       VInt (Z.of_nat (num_train source))] wd in
      let wd := print [VStr "[i] # validation samples: ";
                       VInt (Z.of_nat (num_valid source))] wd in
      let wd := print [VStr "[i] # testing samples:    ";
                       VInt (Z.of_nat (num_test source))] wd in
      let wd := print [VStr "[i] # classes:            ";
                       VInt (Z.of_nat (num_classes source))] wd in
      wd ← (if args_annotate args then
              let wd := print [VStr "[i] Annotating samples..."] wd in
              wd ← annotate (args_data_dir args) (train_samples source)
                     (colors source) "train" wd;
              wd ← annotate (args_data_dir args) (valid_samples source)
                     (colors source) "valid" wd;
              annotate (args_data_dir args) (test_samples source)
                (colors source) "test " wd
            else Ok wd);
      wd ← (if args_compute_gt args then
              let preset := get_preset_by_name (args_preset args) in
              let anchors := get_anchors_for_preset preset in
              let wd := print [VStr "[i] Computing the ground truth..."] wd in
              wd ← compute_gt (args_data_dir args) (train_samples source)
                     anchors (num_classes source) "train" wd;
              wd ← compute_gt (args_data_dir args) (valid_samples source)
                     anchors (num_classes source) "valid" wd;
              Ok (pickle_dump (args_data_dir args +:+ "/training-data.pkl")
                    (TrainingDataPkl
                       (mk_TrainingData preset (num_classes source)
                          (colors source) (lid2name source)
                          (lname2id source))) wd)
            else Ok wd);
      Ok (wd, 0%Z)
  end.

End Encoder.


(** ** Notions used to state the properties *)

(** An assignment attempt: one call of [process_overlap]. *)
Abbreviation Attempt := (Box * Score)%type.

Section Notions.
Context `{SsdUtils}.

(** The overlap stored for a box in the dictionary [overlaps]. *)
Definition overlap_of (anchors_arr : list (list Qc)) (box : Box) : Overlap :=
  compute_overlap (box2array box img_size) anchors_arr threshold.

(** The calls of the first pass, in the order of the two nested loops. *)
Definition good_attempts (anchors_arr : list (list Qc)) (bs : list Box)
  : list Attempt :=
  flat_map (fun box => map (pair box) (good (overlap_of anchors_arr box))) bs.

(** The calls of the second pass. *)
Definition best_attempts (anchors_arr : list (list Qc)) (bs : list Box)
  : list Attempt :=
  map (fun box => (box, best (overlap_of anchors_arr box))) bs.

Definition attempt_step (anchors : list Anchor) (num_classes : nat)
    (a : Attempt) (st : EncState) : result EncState :=
  anchor ← list_get anchors (idx a.2);
  process_overlap a.2 a.1 anchor st.1 num_classes st.2.

Definition run_attempts (anchors : list Anchor) (num_classes : nat)
    (l : list Attempt) (st : EncState) : result EncState :=
  for_each l (attempt_step anchors num_classes) st.

(** The array after each call of a pass that returned. *)
Fixpoint pass_states (anchors : list Anchor) (num_classes : nat)
    (l : list Attempt) (st : EncState) : list Vec :=
  match l with
  | [] => []
  | a :: rest =>
      match attempt_step anchors num_classes a st with
      | Ok st' => st'.2 :: pass_states anchors num_classes rest st'
      | Raise _ => []
      end
  end.

(** The array after its initialisation and after every call of
    [process_overlap] made for a sample, in order. *)
Definition encode_states (anchors : list Anchor)
    (anchors_arr : list (list Qc)) (num_classes : nat) (sample : Sample)
  : list Vec :=
  let v0 := init_vec (length anchors) num_classes in
  let l1 := good_attempts anchors_arr (boxes sample) in
  let l2 := best_attempts anchors_arr (boxes sample) in
  v0 :: pass_states anchors num_classes l1 (∅, v0) ++
    match run_attempts anchors num_classes l1 (∅, v0) with
    | Ok st1 => pass_states anchors num_classes l2 (∅, st1.2)
    | Raise _ => []
    end.

(** A row whose one-hot segment has its 1 in column [k], followed by the
    four offsets. *)
Definition class_row (num_classes k : nat) (l : Loc) : list Qc :=
  <[k := 1%Qc]> (replicate (num_classes + 1) 0%Qc) ++ loc_cells l.

(** The background row: the 1 in column [num_classes], zero offsets. *)
Definition background_row (num_classes : nat) : list Qc :=
  replicate num_classes 0%Qc ++ [1%Qc; 0%Qc; 0%Qc; 0%Qc; 0%Qc].

(** The row [process_overlap] leaves for a box matched to an anchor, in an
    array of width [num_classes + 5]. *)
Definition encoded_row (num_classes : nat) (box : Box) (anchor : Anchor)
  : result (list Qc) :=
  write_row box anchor num_classes (replicate (num_classes + 5) 0%Qc).

(** The attempt at position [p] of a pass wins its anchor: every earlier
    attempt on the same anchor has a strictly smaller score, and no later
    attempt on it has a greater score. *)
Definition wins (l : list Attempt) (p : nat) (a : Attempt) : Prop :=
  l !! p = Some a ∧
  Forall (fun a' => idx a'.2 = idx a.2 → (score a'.2 < score a.2)%Qc)
         (take p l) ∧
  Forall (fun a' => idx a'.2 = idx a.2 → (score a'.2 ≤ score a.2)%Qc)
         (drop (S p) l).

Global Instance wins_dec l p a : Decision (wins l p a).
Proof. unfold wins. apply _. Defined.

(** No attempt of the pass is on anchor [i]. *)
Definition untouched (l : list Attempt) (i : nat) : Prop :=
  Forall (fun a => idx a.2 ≠ i) l.

Global Instance untouched_dec l i : Decision (untouched l i).
Proof. unfold untouched. apply _. Defined.

(** Exactly one of the first [num_classes + 1] cells is 1, the others 0. *)
Definition one_hot_row (num_classes : nat) (row : list Qc) : Prop :=
  ∃ k : nat, (k ≤ num_classes)%nat ∧
       take (num_classes + 1) row
       = <[k := 1%Qc]> (replicate (num_classes + 1) 0%Qc).

Definition one_hot_vec (num_classes : nat) (vec : Vec) : Prop :=
  Forall (one_hot_row num_classes) vec.

(** The row carries the class of the box. *)
Definition has_class (box : Box) (row : list Qc) : bool :=
  bool_decide (0 ≤ labelid box)%Z &&
  bool_decide (row !! Z.to_nat (labelid box) = Some 1%Qc).

Definition vec_shape (vheight vwidth : nat) (vec : Vec) : Prop :=
  length vec = vheight ∧ Forall (fun row => length row = vwidth) vec.

(** The labels of all boxes lie in the one-hot segment. *)
Definition labels_ok (num_classes : nat) (bs : list Box) : Prop :=
  Forall (fun b => (0 ≤ labelid b ≤ Z.of_nat num_classes)%Z) bs.

Global Instance labels_ok_dec nc bs : Decision (labels_ok nc bs).
Proof. unfold labels_ok. apply _. Defined.

(** The labels are indices of a row in the sense of Python. *)
Definition labels_indexable (num_classes : nat) (bs : list Box) : Prop :=
  Forall (fun b => (- Z.of_nat (num_classes + 5) ≤ labelid b
                    < Z.of_nat (num_classes + 5))%Z) bs.

Global Instance labels_indexable_dec nc bs : Decision (labels_indexable nc bs).
Proof. unfold labels_indexable. apply _. Defined.

(** Every anchor index handed out by the overlap scorer is an index of the
    anchor list. *)
Definition overlaps_ok (vheight : nat) (anchors_arr : list (list Qc))
    (bs : list Box) : Prop :=
  Forall (fun b => (idx (best (overlap_of anchors_arr b)) < vheight)%nat ∧
                   Forall (fun o => (idx o < vheight)%nat)
                          (good (overlap_of anchors_arr b))) bs.

Global Instance overlaps_ok_dec vh arr bs : Decision (overlaps_ok vh arr bs).
Proof. unfold overlaps_ok. apply _. Defined.

(** The vectors of all the samples, in order; the first sample that cannot
    be encoded raises. *)
Fixpoint encode_all (anchors : list Anchor) (anchors_arr : list (list Qc))
    (num_classes : nat) (samples : list Sample) : result (list Vec) :=
  match samples with
  | [] => Ok []
  | sample :: rest =>
      vec ← encode_sample anchors anchors_arr num_classes sample;
      vecs ← encode_all anchors anchors_arr num_classes rest;
      Ok (vec :: vecs)
  end.

(** The saves of the vectors of the samples, in order. *)
Definition save_all (data_dir name : string) (l : list (Sample * Vec))
    (wd : World) : World :=
  foldl (fun wd sv => np_save (gt_path data_dir name sv.1) sv.2 wd) wd l.

(** The manifest of a split: every sample with the path of its vector. *)
Definition manifest (data_dir name : string) (samples : list Sample)
  : list (Sample * string) :=
  (fun sample => (sample, gt_path data_dir name sample)) <$> samples.

(** The world once the directory of the split exists. *)
Definition with_gt_dir (data_dir name : string) (wd : World) : World :=
  if path_exists (gt_dir data_dir name) wd then wd
  else makedirs (gt_dir data_dir name) wd.

(** Every label of the samples has a colour. *)
Definition annotatable (colors : gmap string Color) (samples : list Sample)
  : Prop :=
  Forall (fun s => Forall (fun b => is_Some (colors !! label b)) (boxes s))
         samples.

(** Every sample can be encoded against the anchors. *)
Definition encodable (anchors : list Anchor) (num_classes : nat)
    (samples : list Sample) : Prop :=
  Forall (fun s => is_ok (encode_sample anchors
                            (anchors2array anchors img_size) num_classes s))
         samples.

End Notions.

Definition last_char (s : string) : option ascii :=
  list.last (list_ascii_of_string s).

(** ** A reference instance of the [ssdutils] interface *)

(** Modelled from the spec: the Overlap Scorer of [ssdutils] (not part of the
    sources).  Boxes and anchors become corner arrays on the reference
    canvas; the score of a box against an anchor is the intersection area
    over the union area; [good] lists the anchors whose score reaches the
    threshold, in anchor order; [best] is the first anchor of maximal
    score. *)
Module Reference.

Definition Qc_of_Z (n : Z) : Qc := Q2Qc (inject_Z n).

Definition Qcmin (a b : Qc) : Qc := if bool_decide (a ≤ b)%Qc then a else b.
Definition Qcmax (a b : Qc) : Qc := if bool_decide (a ≤ b)%Qc then b else a.

Definition half : Qc := Q2Qc (1 # 2).

(** [xmin, xmax, ymin, ymax] of a centre and an extent given as
    fractions of the canvas. *)
Definition corners (c e : Qc * Qc) (sz : Size) : list Qc :=
  let cx := (c.1 * Qc_of_Z (w sz))%Qc in
  let cy := (c.2 * Qc_of_Z (h sz))%Qc in
  let ew := (e.1 * Qc_of_Z (w sz))%Qc in
  let eh := (e.2 * Qc_of_Z (h sz))%Qc in
  [(cx - ew * half)%Qc; (cx + ew * half)%Qc;
   (cy - eh * half)%Qc; (cy + eh * half)%Qc].

Definition ref_box2array (b : Box) (sz : Size) : list Qc :=
  corners (center b) (extent b) sz.

Definition ref_anchors2array (l : list Anchor) (sz : Size)
  : list (list Qc) :=
  map (fun a => corners (acenter a) (awidth a, aheight a) sz) l.

Definition area (r : list Qc) : Qc :=
  match r with
  | [x0; x1; y0; y1] => ((x1 - x0) * (y1 - y0))%Qc
  | _ => 0%Qc
  end.

Definition intersection (r s : list Qc) : Qc :=
  match r, s with
  | [x0; x1; y0; y1], [u0; u1; v0; v1] =>
      let dx := (Qcmin x1 u1 - Qcmax x0 u0)%Qc in
      let dy := (Qcmin y1 v1 - Qcmax y0 v0)%Qc in
      (Qcmax dx 0 * Qcmax dy 0)%Qc
  | _, _ => 0%Qc
  end.

Definition jaccard (r s : list Qc) : Qc :=
  let i := intersection r s in
  (i / (area r + area s - i))%Qc.

Fixpoint argmax_from (i : nat) (cur : Score) (l : list Qc) : Score :=
  match l with
  | [] => cur
  | x :: rest =>
      argmax_from (S i)
        (if bool_decide (x ≤ score cur)%Qc then cur else mk_Score i x) rest
  end.

Fixpoint good_from (i : nat) (thr : Qc) (l : list Qc) : list Score :=
  match l with
  | [] => []
  | x :: rest =>
      if bool_decide (thr ≤ x)%Qc
      then mk_Score i x :: good_from (S i) thr rest
      else good_from (S i) thr rest
  end.

Definition ref_compute_overlap (box_arr : list Qc)
    (anchors_arr : list (list Qc)) (thr : Qc) : Overlap :=
  let iou := map (jaccard box_arr) anchors_arr in
  let best :=
    match iou with
    | [] => mk_Score 0 0%Qc
    | x :: rest => argmax_from 1 (mk_Score 0 x) rest
    end in
  mk_Overlap best (good_from 0 thr iou).

(** The spec's location encoding takes logarithms of the two size ratios;
    logarithms are not rational, so the instance stores the ratios
    themselves in the last two cells. *)
Definition ref_compute_location (b : Box) (a : Anchor) : Loc :=
  mk_Loc (((center b).1 - (acenter a).1) / awidth a)%Qc
         (((center b).2 - (acenter a).2) / aheight a)%Qc
         ((extent b).1 / awidth a)%Qc
         ((extent b).2 / aheight a)%Qc.

(** A two by two grid of square anchors, and a fifth anchor that overlaps
    the first one, stand for the anchors of a preset. *)
Definition q (n : Z) (d : positive) : Qc := Q2Qc (n # d).

Definition grid : list Anchor :=
  [mk_Anchor (q 1 4, q 1 4) half half; mk_Anchor (q 3 4, q 1 4) half half;
   mk_Anchor (q 1 4, q 3 4) half half; mk_Anchor (q 3 4, q 3 4) half half;
   mk_Anchor (q 3 10, q 1 4) half half].

Definition ref_get_preset_by_name (name : string) : Preset :=
  mk_Preset name
    (if bool_decide (name = "vgg512") then mk_Size 512 512
     else mk_Size 300 300).

Definition ref_get_anchors_for_preset (p : Preset) : list Anchor := grid.

Definition utils : SsdUtils :=
  {| compute_location := ref_compute_location;
     compute_overlap := ref_compute_overlap;
     anchors2array := ref_anchors2array;
     box2array := ref_box2array;
     get_preset_by_name := ref_get_preset_by_name;
     get_anchors_for_preset := ref_get_anchors_for_preset |}.

Definition grid_arr : list (list Qc) := ref_anchors2array grid img_size.

(** Two classes, [cat] (0) and [dog] (1); column 2 is the background. *)
Definition classes : nat := 2.

(** Both boxes overlap anchor 0 well: [wide_dog] with score 4/5,
    [full_cat] with score 1. *)
Definition wide_dog : Box := mk_Box "dog" 1 (q 1 4, q 1 4) (q 2 5, q 1 2).
Definition full_cat : Box := mk_Box "cat" 0 (q 1 4, q 1 4) (q 1 2, q 1 2).
Definition two_good : Sample :=
  mk_Sample "VOC/JPEGImages/000001.jpg" [wide_dog; full_cat]
            (mk_Size 500 375).

(** [shifted_cat] is anchor 4 itself and overlaps anchor 0 with score
    9/11; the best anchor of [slim_dog] is anchor 0, with score 2/5. *)
Definition shifted_cat : Box :=
  mk_Box "cat" 0 (q 3 10, q 1 4) (q 1 2, q 1 2).
Definition slim_dog : Box := mk_Box "dog" 1 (q 1 10, q 1 4) (q 1 5, q 1 2).
Definition overwritten : Sample :=
  mk_Sample "VOC/JPEGImages/000002.jpg" [shifted_cat; slim_dog]
            (mk_Size 640 480).

(** Two small boxes with the same best anchor and no good anchor: the
    scores are 1/25 and 4/25. *)
Definition tiny_cat : Box := mk_Box "cat" 0 (q 1 4, q 1 4) (q 1 10, q 1 10).
Definition small_dog : Box := mk_Box "dog" 1 (q 1 4, q 1 4) (q 1 5, q 1 5).
Definition crowded : Sample :=
  mk_Sample "VOC/JPEGImages/000003.jpg" [tiny_cat; small_dog]
            (mk_Size 500 375).

(** Two small boxes with the same best anchor, no good anchor and the same
    score, 1/25. *)
Definition tiny_dog : Box := mk_Box "dog" 1 (q 1 5, q 1 4) (q 1 10, q 1 10).
Definition tied : Sample :=
  mk_Sample "VOC/JPEGImages/000005.jpg" [tiny_cat; tiny_dog]
            (mk_Size 500 375).

Definition no_boxes : Sample :=
  mk_Sample "VOC/JPEGImages/000004.jpg" [] (mk_Size 500 375).

(** The same annotation as [two_good] in another directory, with another
    image size. *)
Definition two_good_copy : Sample :=
  mk_Sample "VOC2012/JPEGImages/000001.jpg" [wide_dog; full_cat]
            (mk_Size 1024 768).

(** Another annotation under the base name of [two_good]. *)
Definition namesake : Sample :=
  mk_Sample "VOC2012/JPEGImages/000001.jpg" [tiny_cat; small_dog]
            (mk_Size 500 375).

Definition empty_world : World := mk_World ∅ ∅ [].

(** A data source in the manner of the plug-ins: an unknown name is a
    missing module, an empty directory name is a malformed data set, and
    a directory that cannot be listed makes the operating system call of
    the loader fail. *)
Definition blank : Source :=
  mk_Source 0 0 0 classes [] [] []
    {[ "cat" := (0, 0, 255)%Z; "dog" := (0, 255, 0)%Z ]}
    {[ 0%Z := "cat"; 1%Z := "dog" ]}
    {[ "cat" := 0%Z; "dog" := 1%Z ]}.

Definition ref_load_data_source (name : string) : result Source :=
  if bool_decide (name = "pascal_voc") then Ok blank
  else Raise (mk_exn ModuleNotFoundError ("No module named source_" +:+ name)).

Definition ref_load_trainval_data (src : Source) (dir : string)
    (fraction : Qc) : result Source :=
  if bool_decide (dir = "") then
    Raise (mk_exn RuntimeError "Directory does not exist")
  else if bool_decide (dir = "/mnt/voc") then
    Raise (mk_exn OSError "Permission denied: /mnt/voc")
  else
    Ok (mk_Source 2 1 (num_test src) (num_classes src)
          [two_good; overwritten] [crowded] (test_samples src)
          (colors src) (lid2name src) (lname2id src)).

Definition ref_load_test_data (src : Source) (dir : string)
  : result Source :=
  Ok (mk_Source (num_train src) (num_valid src) 1 (num_classes src)
        (train_samples src) (valid_samples src) [no_boxes]
        (colors src) (lid2name src) (lname2id src)).

Definition source : DataSource :=
  {| load_data_source := ref_load_data_source;
     load_trainval_data := ref_load_trainval_data;
     load_test_data := ref_load_test_data |}.

Definition args_for (data_source data_dir : string) : Args :=
  mk_Args data_source data_dir (q 1 40) true true "vgg300".

Definition run_main (args : Args) : result (World * Z) :=
  main (H := utils) (H0 := source) args empty_world.

(** The state a pass returned, for stating facts about concrete runs. *)
Definition state_of (r : result EncState) : EncState :=
  match r with Ok st => st | Raise _ => (∅, []) end.

Definition vec_of (r : result Vec) : Vec :=
  match r with Ok v => v | Raise _ => [] end.

Definition encode (sample : Sample) : result Vec :=
  encode_sample (H := utils) grid grid_arr classes sample.

(** The state after the pass over the good matches of a sample. *)
Definition after_good (sample : Sample) : EncState :=
  state_of (good_pass (H := utils) grid classes
              (compute_overlaps (H := utils) grid_arr (boxes sample))
              (boxes sample) (∅, init_vec (length grid) classes)).

Definition best_of (box : Box) : Score :=
  best (overlap_of (H := utils) grid_arr box).

End Reference.

(** ** The encoding on a canvas *)

Section CanvasNotions.
Context `{SsdUtils}.

(** The wording of the specification: the boxes of the image and the
    anchors are converted on a canvas, the scorer is run on the converted
    geometry, and the two passes are made over the scores.  The size of the
    image is no argument. *)
Definition canvas_overlap (canvas : Size) (anchors : list Anchor) (box : Box)
  : Overlap :=
  compute_overlap (box2array box canvas) (anchors2array anchors canvas)
                  threshold.

Definition canvas_good_attempts (canvas : Size) (anchors : list Anchor)
    (bs : list Box) : list Attempt :=
  flat_map (fun box => map (pair box) (good (canvas_overlap canvas anchors box)))
           bs.

Definition canvas_best_attempts (canvas : Size) (anchors : list Anchor)
    (bs : list Box) : list Attempt :=
  map (fun box => (box, best (canvas_overlap canvas anchors box))) bs.

Definition canvas_encoding (canvas : Size) (anchors : list Anchor)
    (num_classes : nat) (bs : list Box) : result Vec :=
  st1 ← run_attempts anchors num_classes
          (canvas_good_attempts canvas anchors bs)
          (∅, init_vec (length anchors) num_classes);
  st2 ← run_attempts anchors num_classes
          (canvas_best_attempts canvas anchors bs) (∅, st1.2);
  Ok st2.2.

End CanvasNotions.

(** ** Further notions *)

(** The anchor and the score of an attempt. *)
Definition attempt_key (a : Attempt) : nat * Qc := (idx a.2, score a.2).

(** No two attempts of the pass are on the same anchor with the same
    score. *)
Definition tie_free (l : list Attempt) : Prop := NoDup (attempt_key <$> l).

Global Instance tie_free_dec l : Decision (tie_free l).
Proof. unfold tie_free. apply _. Defined.

(** What the table of a pass that started from the empty table holds for
    anchor [i]: nothing when the pass has no attempt on the anchor, else the
    greatest score of the attempts on it. *)
Definition records_maximum (l : list Attempt) (i : nat) (entry : option Qc)
  : Prop :=
  match entry with
  | None => untouched l i
  | Some s =>
      (∃ a, a ∈ l ∧ idx a.2 = i ∧ score a.2 = s) ∧
      ∀ a, a ∈ l → idx a.2 = i → (score a.2 ≤ s)%Qc
  end.

(** The directory and the files of [annotate]. *)
Definition annotated_dir (data_dir name : string) : string :=
  data_dir +:+ "/annotated/" +:+ strip name +:+ "/".

Definition annotated_path (data_dir name : string) (sample : Sample)
  : string :=
  annotated_dir data_dir name +:+ basename (filename sample).

Definition with_annotated_dir (data_dir name : string) (wd : World) : World :=
  if path_exists (annotated_dir data_dir name) wd then wd
  else makedirs (annotated_dir data_dir name) wd.

(** Line 52: one box drawn in the colour of its label. *)
Definition draw_step (colors : gmap string Color) (box : Box) (img : Img)
  : result Img :=
  match colors !! label box with
  | Some c => Ok (mk_Img (img_src img) (drawn img ++ [(box, c)]))
  | None => Raise key_error
  end.

(** Lines 49-52: the image of a sample with all its boxes drawn. *)
Definition annotated_image (colors : gmap string Color) (sample : Sample)
  : result Img :=
  for_each (boxes sample) (draw_step colors) (mk_Img (filename sample) []).

(** The events that write a file. *)
Definition is_file_write (ev : event) : bool :=
  match ev with
  | NpSave _ _ | PickleDump _ _ | ImWrite _ _ => true
  | _ => false
  end.

(** The boxes with the colours of their labels, when every label has one. *)
Fixpoint colour_boxes (colors : gmap string Color) (bs : list Box)
  : option (list (Box * Color)) :=
  match bs with
  | [] => Some []
  | b :: rest =>
      match colors !! label b, colour_boxes colors rest with
      | Some c, Some l => Some ((b, c) :: l)
      | _, _ => None
      end
  end.

(** The images of all the samples, in order; the first sample with a label
    that has no colour raises. *)
Fixpoint annotate_all (colors : gmap string Color) (samples : list Sample)
  : result (list Img) :=
  match samples with
  | [] => Ok []
  | sample :: rest =>
      img ← annotated_image colors sample;
      imgs ← annotate_all colors rest;
      Ok (img :: imgs)
  end.

(** The writes of the annotated images, in order. *)
Definition write_images (data_dir name : string) (l : list (Sample * Img))
    (wd : World) : World :=
  foldl (fun wd si => imwrite (annotated_path data_dir name si.1) si.2 wd)
        wd l.

(** The events of the saves of a split and of the dump of its manifest. *)
Definition gt_events (data_dir name : string) (samples : list Sample)
    (vecs : list Vec) : list event :=
  ((fun sv => NpSave (gt_path data_dir name sv.1) sv.2) <$> zip samples vecs)
  ++ [PickleDump (samples_pkl data_dir name)
        (SamplesPkl (manifest data_dir name samples))].

Definition image_events (data_dir name : string) (samples : list Sample)
    (imgs : list Img) : list event :=
  (fun si => ImWrite (annotated_path data_dir name si.1) si.2)
    <$> zip samples imgs.

(** ** Further reference cases *)

Module Cases.

Import Reference.

(** A box whose label names the second offset cell of a row of width 7. *)
Definition mislabelled : Box := mk_Box "dog" 4 (q 1 4, q 1 4) (q 1 2, q 1 2).

(** A box whose label is outside a row of width 7. *)
Definition unlabelled : Box := mk_Box "bird" 9 (q 1 4, q 1 4) (q 1 2, q 1 2).
Definition broken : Sample :=
  mk_Sample "VOC/JPEGImages/000006.jpg" [unlabelled] (mk_Size 500 375).



(** [two_good] with its boxes in the other order. *)
Definition two_good_swapped : Sample :=
  mk_Sample "VOC/JPEGImages/000001.jpg" [full_cat; wide_dog]
            (mk_Size 500 375).

(** A world that already holds a file and a directory. *)
Definition used_world : World :=
  mk_World {[ "pascal-voc/" ]}
           {[ "pascal-voc/readme.txt" := ImageFile (mk_Img "readme" []) ]}
           [Print [VStr "before"]].

Definition world_of (r : result World) : World :=
  match r with Ok wd => wd | Raise _ => empty_world end.

Definition main_world (r : result (World * Z)) : World :=
  match r with Ok (wd, _) => wd | Raise _ => empty_world end.

(** The world after the ground truth of the training samples. *)
Definition after_train : World :=
  world_of (compute_gt (H := utils) "pascal-voc" [two_good; overwritten]
              grid classes "train" used_world).

(** The world after the annotation of the training samples. *)
Definition after_annotate : World :=
  world_of (annotate "pascal-voc" [two_good; overwritten] (colors blank)
              "train" used_world).

(** The state after the pass over the best matches of a sample. *)
Definition after_best (sample : Sample) : EncState :=
  state_of (best_pass (H := utils) grid classes
              (compute_overlaps (H := utils) grid_arr (boxes sample))
              (boxes sample) (∅, (after_good sample).2)).

(** The source as loaded from the directory [pascal-voc]. *)
Definition loaded : Source :=
  mk_Source 2 1 1 classes [two_good; overwritten] [crowded] [no_boxes]
            (colors blank) (lid2name blank) (lname2id blank).

End Cases.

(** * Properties *)

(** ** The loop combinator *)

Lemma for_each_app {A S} (xs ys : list A) (body : A -> S -> result S) st :
  for_each (xs ++ ys) body st
  = (st' ← for_each xs body st; for_each ys body st').
Proof.
  revert st. induction xs as [|x xs IH]; intros st; simpl; [done|].
  destruct (body x st) as [st'|e]; simpl; [apply IH|done].
Qed.

Lemma for_each_ext {A S} (xs : list A) (f g : A -> S -> result S) st :
  (∀ x st, x ∈ xs → f x st = g x st) →
  for_each xs f st = for_each xs g st.
Proof.
  revert st. induction xs as [|x xs IH]; intros st Hfg; simpl; [done|].
  rewrite Hfg by left.
  destruct (g x st) as [st'|e]; simpl; [|done].
  apply IH. intros y st'' Hy. apply Hfg. by right.
Qed.

(** An invariant of the body is an invariant of the loop. *)
Lemma for_each_inv {A S} (P : S → Prop) (xs : list A)
    (body : A -> S -> result S) st st' :
  (∀ x s s', x ∈ xs → P s → body x s = Ok s' → P s') →
  P st → for_each xs body st = Ok st' → P st'.
Proof.
  revert st. induction xs as [|x xs IH]; intros st Hbody HP; simpl.
  - by intros [= <-].
  - destruct (body x st) as [s1|e] eqn:Hx; simpl; [|done].
    apply IH.
    + intros y s s' Hy. apply Hbody. by right.
    + eapply Hbody; [left|exact HP|exact Hx].
Qed.

(** ** Rows *)

Lemma length_fill_prefix n x (row : list Qc) :
  length (fill_prefix n x row) = length row.
Proof.
  unfold fill_prefix. rewrite length_app, length_replicate, length_drop. lia.
Qed.

Lemma take_fill_prefix n x (row : list Qc) :
  take n (fill_prefix n x row) = replicate (n `min` length row) x.
Proof.
  unfold fill_prefix.
  destruct (decide (n ≤ length row)%nat) as [Hle|Hgt].
  - replace (n `min` length row)%nat with n by lia.
    rewrite take_app_le by (rewrite length_replicate; lia).
    apply take_ge. rewrite length_replicate. lia.
  - rewrite drop_ge by lia. rewrite app_nil_r.
    apply take_ge. rewrite length_replicate. lia.
Qed.

Lemma py_index_lt width j k : py_index width j = Some k → (k < width)%nat.
Proof.
  unfold py_index. repeat case_bool_decide; intros [= <-]; lia.
Qed.

Lemma py_index_in_range width j :
  (0 ≤ j < Z.of_nat width)%Z → py_index width j = Some (Z.to_nat j).
Proof. intros Hj. unfold py_index. by rewrite bool_decide_eq_true_2. Qed.

Section RowFacts.
Context `{SsdUtils}.

(** In an array of width [num_classes + 5] the written row does not depend
    on what the row held before. *)
Lemma write_row_shape box anchor nc (row : list Qc) :
  length row = (nc + 5)%nat →
  write_row box anchor nc row =
    match py_index (nc + 5) (labelid box) with
    | Some k =>
        Ok ((if bool_decide (k < nc + 1)%nat
             then <[k := 1%Qc]> (replicate (nc + 1) 0%Qc)
             else replicate (nc + 1) 0%Qc)
            ++ loc_cells (compute_location box anchor))
    | None => Raise index_error
    end.
Proof.
  intros Hlen. unfold write_row, set_cell.
  rewrite length_fill_prefix, Hlen.
  destruct (py_index (nc + 5) (labelid box)) as [k|] eqn:Hk; [|done].
  simpl. unfold set_suffix.
  rewrite bool_decide_eq_true_2; last first.
  { rewrite length_drop, length_insert, length_fill_prefix, Hlen.
    change (length (loc_cells _)) with 4%nat. lia. }
  f_equal. f_equal.
  rewrite take_insert, take_fill_prefix, Hlen.
  replace ((nc + 1) `min` (nc + 5))%nat with (nc + 1)%nat by lia.
  case_bool_decide; case_decide; done || lia.
Qed.

Lemma write_row_encoded box anchor nc (row : list Qc) :
  length row = (nc + 5)%nat →
  write_row box anchor nc row = encoded_row nc box anchor.
Proof.
  intros Hlen. unfold encoded_row.
  rewrite !write_row_shape; [done| |done]. by rewrite length_replicate.
Qed.

Lemma encoded_row_in_range box anchor nc :
  (0 ≤ labelid box ≤ Z.of_nat nc)%Z →
  encoded_row nc box anchor
  = Ok (class_row nc (Z.to_nat (labelid box)) (compute_location box anchor)).
Proof.
  intros Hl. unfold encoded_row.
  rewrite write_row_shape by (by rewrite length_replicate).
  rewrite py_index_in_range by lia.
  rewrite bool_decide_eq_true_2 by lia. done.
Qed.

Lemma encoded_row_length box anchor nc r :
  encoded_row nc box anchor = Ok r → length r = (nc + 5)%nat.
Proof.
  unfold encoded_row.
  rewrite write_row_shape by (by rewrite length_replicate).
  destruct (py_index _ _) as [k|]; [|done]. intros [= <-].
  rewrite length_app. simpl.
  case_bool_decide; rewrite ?length_insert, length_replicate; lia.
Qed.

Lemma class_row_one_hot nc k l :
  (k ≤ nc)%nat → one_hot_row nc (class_row nc k l).
Proof.
  intros Hk. exists k. split; [done|]. unfold class_row.
  rewrite take_app_length'; [done|].
  by rewrite length_insert, length_replicate.
Qed.

Lemma class_row_has_class nc box l :
  (0 ≤ labelid box ≤ Z.of_nat nc)%Z →
  has_class box (class_row nc (Z.to_nat (labelid box)) l) = true.
Proof.
  intros Hl. unfold has_class, class_row.
  rewrite bool_decide_eq_true_2 by lia. simpl.
  apply bool_decide_eq_true_2.
  rewrite lookup_app_l by (rewrite length_insert, length_replicate; lia).
  apply list_lookup_insert_eq. rewrite length_replicate. lia.
Qed.

End RowFacts.

(** ** One call of [process_overlap] *)

Section StepFacts.
Context `{SsdUtils}.
Implicit Types (m : gmap nat Qc) (v : Vec) (a : Attempt) (o : Score).

(** The call is skipped when the table holds at least the new score. *)
Lemma process_overlap_skip o box anchor m nc v s :
  m !! idx o = Some s → (score o ≤ s)%Qc →
  process_overlap o box anchor m nc v = Ok (m, v).
Proof.
  intros Hm Hle. unfold process_overlap. rewrite Hm.
  by rewrite bool_decide_eq_true_2.
Qed.

(** Otherwise the score is recorded and the row is rewritten. *)
Lemma process_overlap_write o box anchor m nc v :
  (∀ s, m !! idx o = Some s → (s < score o)%Qc) →
  process_overlap o box anchor m nc v =
    match v !! idx o with
    | Some row =>
        row' ← write_row box anchor nc row;
        Ok (<[idx o := score o]> m, <[idx o := row']> v)
    | None => Raise index_error
    end.
Proof.
  intros Hm. unfold process_overlap.
  destruct (m !! idx o) as [s|] eqn:Hs; [|done].
  rewrite bool_decide_eq_false_2; [done|].
  apply Qclt_not_le. by apply Hm.
Qed.

(** The two ways a call can return. *)
Lemma attempt_step_cases anchors nc a m v m' v' :
  attempt_step anchors nc a (m, v) = Ok (m', v') →
  (∃ s, m !! idx a.2 = Some s ∧ (score a.2 ≤ s)%Qc ∧ m' = m ∧ v' = v)
  ∨ ((∀ s, m !! idx a.2 = Some s → (s < score a.2)%Qc) ∧
     m' = <[idx a.2 := score a.2]> m ∧
     ∃ anchor row r,
       anchors !! idx a.2 = Some anchor ∧ v !! idx a.2 = Some row ∧
       write_row a.1 anchor nc row = Ok r ∧ v' = <[idx a.2 := r]> v).
Proof.
  destruct a as [box o]. unfold attempt_step, list_get. simpl.
  destruct (anchors !! idx o) as [anchor|] eqn:Ha; [simpl|done].
  destruct (m !! idx o) as [s|] eqn:Hs.
  - destruct (decide (score o ≤ s)%Qc) as [Hle|Hgt].
    + rewrite (process_overlap_skip _ _ _ _ _ _ s) by done.
      intros [= <- <-]. left. by exists s.
    + assert (∀ s', m !! idx o = Some s' → (s' < score o)%Qc) as Hlt.
      { intros s' Hs'. rewrite Hs in Hs'. injection Hs' as <-.
        by apply Qcnot_le_lt. }
      rewrite process_overlap_write by done.
      destruct (v !! idx o) as [row|] eqn:Hrow; [|done].
      destruct (write_row box anchor nc row) as [r|] eqn:Hr; [|done].
      simpl. intros [= <- <-]. right. split; [by rewrite <-Hs|].
      split; [done|]. by exists anchor, row, r.
  - assert (∀ s', m !! idx o = Some s' → (s' < score o)%Qc) as Hlt.
    { intros s' Hs'. by rewrite Hs in Hs'. }
    rewrite process_overlap_write by done.
    destruct (v !! idx o) as [row|] eqn:Hrow; [|done].
    destruct (write_row box anchor nc row) as [r|] eqn:Hr; [|done].
    simpl. intros [= <- <-]. right. split; [by rewrite <-Hs|].
    split; [done|]. by exists anchor, row, r.
Qed.

Lemma vec_shape_insert vh vw v i (r : list Qc) :
  vec_shape vh vw v → length r = vw → vec_shape vh vw (<[i := r]> v).
Proof.
  intros [Hlen Hrows] Hr. split; [by rewrite length_insert|].
  apply Forall_insert; done.
Qed.

Lemma vec_shape_lookup vh vw v i (row : list Qc) :
  vec_shape vh vw v → v !! i = Some row → length row = vw ∧ (i < vh)%nat.
Proof.
  intros [Hlen Hrows] Hi. split.
  - by eapply (Forall_lookup_1 _ _ _ _ Hrows).
  - rewrite <-Hlen. by eapply lookup_lt_Some.
Qed.

(** A call keeps the shape of the array. *)
Lemma attempt_step_shape anchors nc a vh st st' :
  attempt_step anchors nc a st = Ok st' →
  vec_shape vh (nc + 5) st.2 → vec_shape vh (nc + 5) st'.2.
Proof.
  destruct st as [m v], st' as [m' v']. simpl. intros Hstep Hsh.
  apply attempt_step_cases in Hstep
    as [(s & _ & _ & _ & ->)|(_ & _ & anchor & row & r & _ & Hrow & Hr & ->)];
    [done|].
  apply vec_shape_insert; [done|].
  destruct (vec_shape_lookup _ _ _ _ _ Hsh Hrow) as [Hlen _].
  rewrite write_row_encoded in Hr by done.
  by eapply encoded_row_length.
Qed.

(** In an array of width [num_classes + 5] the rewritten row is the encoded
    row of the box. *)
Lemma attempt_step_cases_shape anchors nc a vh m v m' v' :
  vec_shape vh (nc + 5) v →
  attempt_step anchors nc a (m, v) = Ok (m', v') →
  (∃ s, m !! idx a.2 = Some s ∧ (score a.2 ≤ s)%Qc ∧ m' = m ∧ v' = v)
  ∨ ((∀ s, m !! idx a.2 = Some s → (s < score a.2)%Qc) ∧
     m' = <[idx a.2 := score a.2]> m ∧
     ∃ anchor r,
       anchors !! idx a.2 = Some anchor ∧ (idx a.2 < vh)%nat ∧
       encoded_row nc a.1 anchor = Ok r ∧ v' = <[idx a.2 := r]> v).
Proof.
  intros Hsh Hstep.
  apply attempt_step_cases in Hstep
    as [?|(Hlt & -> & anchor & row & r & Ha & Hrow & Hr & ->)]; [by left|].
  right. split; [done|]. split; [done|]. exists anchor, r.
  destruct (vec_shape_lookup _ _ _ _ _ Hsh Hrow) as [Hlen Hi].
  rewrite write_row_encoded in Hr by done. done.
Qed.

End StepFacts.

(** ** One pass *)

Section PassFacts.
Context `{SsdUtils}.
Implicit Types (m : gmap nat Qc) (v : Vec) (a : Attempt) (o : Score).

Lemma run_attempts_shape anchors nc l vh st st' :
  run_attempts anchors nc l st = Ok st' →
  vec_shape vh (nc + 5) st.2 → vec_shape vh (nc + 5) st'.2.
Proof.
  intros Hrun Hsh. unfold run_attempts in Hrun.
  eapply (for_each_inv (fun st => vec_shape vh (nc + 5) st.2));
    [|exact Hsh|exact Hrun].
  intros a s s' _ Hs Hstep. by eapply attempt_step_shape.
Qed.

(** A pass leaves alone every anchor whose attempts are all beaten by the
    score the table holds for it; in particular an anchor without attempt. *)
Lemma run_attempts_keep anchors nc l i m v m' v' :
  run_attempts anchors nc l (m, v) = Ok (m', v') →
  (∀ a, a ∈ l → idx a.2 = i →
        ∃ s, m !! i = Some s ∧ (score a.2 ≤ s)%Qc) →
  m' !! i = m !! i ∧ v' !! i = v !! i.
Proof.
  unfold run_attempts. revert m v.
  induction l as [|a l IH]; intros m v; simpl.
  - by intros [= <- <-].
  - destruct (attempt_step anchors nc a (m, v)) as [[m1 v1]|e] eqn:Hstep;
      [simpl|done].
    intros Hrun Hall.
    assert (m1 !! i = m !! i ∧ v1 !! i = v !! i) as [Hm1 Hv1].
    { apply attempt_step_cases in Hstep
        as [(s & _ & _ & -> & ->)|(Hlt & -> & _ & _ & r & _ & _ & _ & ->)];
        [done|].
      destruct (decide (idx a.2 = i)) as [Heq|Hne].
      - destruct (Hall a) as (s & Hs & Hle); [left|done|].
        rewrite <-Heq in Hs. apply Hlt in Hs.
        by apply Qclt_not_le in Hs.
      - by rewrite lookup_insert_ne, list_lookup_insert_ne. }
    destruct (IH m1 v1 Hrun) as [Hm' Hv'].
    { intros a' Ha' Hi. rewrite Hm1. apply Hall; [by right|done]. }
    by rewrite Hm', Hv'.
Qed.

(** The score a pass records for an anchor is the one it started with or
    the score of one of the attempts on that anchor. *)
Lemma run_attempts_bound anchors nc l i m v m' v' :
  run_attempts anchors nc l (m, v) = Ok (m', v') →
  m' !! i = m !! i ∨ ∃ a, a ∈ l ∧ idx a.2 = i ∧ m' !! i = Some (score a.2).
Proof.
  unfold run_attempts. revert m v.
  induction l as [|a l IH]; intros m v; simpl.
  - intros [= <- <-]. by left.
  - destruct (attempt_step anchors nc a (m, v)) as [[m1 v1]|e] eqn:Hstep;
      [simpl|done].
    intros Hrun.
    destruct (IH m1 v1 Hrun) as [Hsame|(a' & Ha' & Hi & Hm')].
    + rewrite Hsame.
      apply attempt_step_cases in Hstep
        as [(s & _ & _ & -> & ->)|(Hlt & -> & _)]; [by left|].
      destruct (decide (idx a.2 = i)) as [Heq|Hne].
      * right. exists a. split; [left|]. split; [done|].
        rewrite <-Heq. apply lookup_insert_eq.
      * left. by rewrite lookup_insert_ne.
    + right. exists a'. split; [by right|done].
Qed.

(** The attempt that wins an anchor: it beats what the table held, it
    beats strictly every earlier attempt on the anchor, and no later attempt
    on the anchor has a greater score.  After the pass the table holds its
    score and the row of the anchor is the encoded row of its box. *)
Lemma run_attempts_winner anchors nc vh pre box o post m v m' v' :
  vec_shape vh (nc + 5) v →
  run_attempts anchors nc (pre ++ (box, o) :: post) (m, v) = Ok (m', v') →
  (∀ s, m !! idx o = Some s → (s < score o)%Qc) →
  (∀ a, a ∈ pre → idx a.2 = idx o → (score a.2 < score o)%Qc) →
  (∀ a, a ∈ post → idx a.2 = idx o → (score a.2 ≤ score o)%Qc) →
  m' !! idx o = Some (score o) ∧
  ∃ anchor r, anchors !! idx o = Some anchor ∧
              encoded_row nc box anchor = Ok r ∧ v' !! idx o = Some r.
Proof.
  intros Hsh Hrun Hm Hpre Hpost. unfold run_attempts in Hrun.
  rewrite for_each_app in Hrun.
  destruct (for_each pre (attempt_step anchors nc) (m, v))
    as [[m1 v1]|e] eqn:Hrun1; [simpl in Hrun|done].
  destruct (attempt_step anchors nc (box, o) (m1, v1))
    as [[m2 v2]|e] eqn:Hstep; [simpl in Hrun|done].
  assert (vec_shape vh (nc + 5) v1) as Hsh1.
  { by apply (run_attempts_shape anchors nc pre vh (m, v) (m1, v1)). }
  assert (∀ s, m1 !! idx o = Some s → (s < score o)%Qc) as Hm1.
  { intros s Hs.
    destruct (run_attempts_bound anchors nc pre (idx o) m v m1 v1 Hrun1)
      as [Hsame|(a & Ha & Hi & Hsc)].
    - apply Hm. by rewrite <-Hsame.
    - rewrite Hs in Hsc. injection Hsc as ->. by apply Hpre. }
  destruct (attempt_step_cases_shape anchors nc (box, o) vh _ _ _ _ Hsh1 Hstep)
    as [(s & Hs & Hle & _)|(_ & -> & anchor & r & Ha & Hi & Hr & ->)];
    simpl in *.
  { apply Hm1 in Hs. by apply Qclt_not_le in Hs. }
  destruct (run_attempts_keep anchors nc post (idx o) _ _ m' v' Hrun)
    as [Hm' Hv'].
  { intros a Ha' Hia. exists (score o).
    split; [apply lookup_insert_eq|by apply Hpost]. }
  split; [by rewrite Hm', lookup_insert_eq|].
  exists anchor, r. split; [done|]. split; [done|].
  rewrite Hv'. apply list_lookup_insert_eq.
  destruct Hsh1 as [-> _]. done.
Qed.

(** ** The dictionary of overlaps *)

Lemma dict_get_set_eq d k ov : dict_get (dict_set k ov d) k = Ok ov.
Proof.
  induction d as [|[k' v'] d IH]; simpl.
  - by rewrite bool_decide_eq_true_2.
  - case_bool_decide as Hk; simpl.
    + by rewrite bool_decide_eq_true_2.
    + by rewrite bool_decide_eq_false_2.
Qed.

Lemma dict_get_set_ne d k k' ov :
  k ≠ k' → dict_get (dict_set k ov d) k' = dict_get d k'.
Proof.
  intros Hne. induction d as [|[k0 v0] d IH]; simpl.
  - by rewrite bool_decide_eq_false_2.
  - case_bool_decide as Hk; simpl.
    + subst k0. by rewrite !bool_decide_eq_false_2.
    + case_bool_decide; [done|apply IH].
Qed.

(** Every box of the sample finds its own overlap in the dictionary. *)
Lemma compute_overlaps_get arr bs box :
  box ∈ bs →
  dict_get (compute_overlaps arr bs) box = Ok (overlap_of arr box).
Proof.
  unfold compute_overlaps. generalize (@nil (Box * Overlap)).
  induction bs as [|b bs IH] using rev_ind; intros d Hin.
  - by apply elem_of_nil in Hin.
  - rewrite foldl_app. simpl.
    destruct (decide (b = box)) as [->|Hne].
    + apply dict_get_set_eq.
    + rewrite dict_get_set_ne by done. apply IH.
      apply elem_of_app in Hin as [?|Hin]; [done|].
      apply list_elem_of_singleton in Hin. congruence.
Qed.

(** ** The two passes as sequences of attempts *)

Lemma good_pass_attempts anchors nc arr bs st :
  good_pass anchors nc (compute_overlaps arr bs) bs st
  = run_attempts anchors nc (good_attempts arr bs) st.
Proof.
  unfold good_pass, run_attempts, good_attempts.
  generalize (compute_overlaps_get arr bs).
  generalize (compute_overlaps arr bs) as d.
  intros d Hd. revert st.
  induction bs as [|b bs' IH] in Hd |- *; intros st; simpl; [done|].
  rewrite for_each_app, Hd by left. simpl.
  assert (∀ (l : list Score) st0,
    for_each l (fun overlap '(matches, vec) =>
       anchor ← list_get anchors (idx overlap);
       process_overlap overlap b anchor matches nc vec) st0
    = for_each (map (pair b) l) (attempt_step anchors nc) st0) as Hinner.
  { induction l as [|o l IHl]; intros [m0 v0]; simpl; [done|].
    change (attempt_step anchors nc (b, o) (m0, v0))
      with (anchor ← list_get anchors (idx o);
            process_overlap o b anchor m0 nc v0).
    destruct (list_get anchors (idx o)) as [anchor|]; simpl; [|done].
    destruct (process_overlap o b anchor m0 nc v0) as [st1|]; simpl; [|done].
    apply IHl. }
  rewrite Hinner.
  destruct (for_each (map (pair b) (good (overlap_of arr b))) _ st)
    as [st1|e]; simpl; [|done].
  apply IH. intros box Hbox. apply Hd. by right.
Qed.

Lemma best_pass_attempts anchors nc arr bs st :
  best_pass anchors nc (compute_overlaps arr bs) bs st
  = run_attempts anchors nc (best_attempts arr bs) st.
Proof.
  unfold best_pass, run_attempts, best_attempts.
  generalize (compute_overlaps_get arr bs).
  generalize (compute_overlaps arr bs) as d.
  intros d Hd. revert st.
  induction bs as [|b bs' IH] in Hd |- *; intros [m v]; simpl; [done|].
  rewrite Hd by left. simpl.
  change (attempt_step anchors nc (b, best (overlap_of arr b)) (m, v))
    with (anchor ← list_get anchors (idx (best (overlap_of arr b)));
          process_overlap (best (overlap_of arr b)) b anchor m nc v).
  destruct (list_get anchors _) as [anchor|]; simpl; [|done].
  destruct (process_overlap _ b anchor m nc v) as [st1|]; simpl; [|done].
  apply IH. intros box Hbox. apply Hd. by right.
Qed.

(** The encoding of a sample is the run of the good attempts from an empty
    table, followed by the run of the best attempts from an empty table. *)
Lemma encode_sample_attempts anchors arr nc sample :
  encode_sample anchors arr nc sample =
    (st1 ← run_attempts anchors nc (good_attempts arr (boxes sample))
            (∅, init_vec (length anchors) nc);
     st2 ← run_attempts anchors nc (best_attempts arr (boxes sample))
            (∅, st1.2);
     Ok st2.2).
Proof.
  unfold encode_sample. rewrite good_pass_attempts.
  destruct (run_attempts _ _ (good_attempts _ _) _) as [[m1 v1]|e];
    simpl; [|done].
  rewrite best_pass_attempts.
  by destruct (run_attempts _ _ (best_attempts _ _) _) as [[m2 v2]|e].
Qed.

End PassFacts.

(** ** The initial array *)

Lemma set_column_replicate c x vh (row : list Qc) :
  set_column c x (replicate vh row) = replicate vh (<[c := x]> row).
Proof. unfold set_column. apply fmap_replicate. Qed.

Lemma background_row_class nc :
  background_row nc = class_row nc nc (mk_Loc 0 0 0 0).
Proof.
  unfold background_row, class_row. rewrite replicate_add.
  rewrite insert_app_r_alt by (rewrite length_replicate; lia).
  rewrite length_replicate, Nat.sub_diag. simpl.
  by rewrite <-app_assoc.
Qed.

Lemma background_row_alt nc :
  <[(nc + 4)%nat := 0%Qc]> (<[(nc + 3)%nat := 0%Qc]>
    (<[(nc + 2)%nat := 0%Qc]> (<[(nc + 1)%nat := 0%Qc]>
       (<[nc := 1%Qc]> (replicate (nc + 5) 0%Qc)))))
  = background_row nc.
Proof.
  assert (<[nc := 1%Qc]> (replicate (nc + 5) 0%Qc) = background_row nc)
    as ->.
  { unfold background_row. rewrite replicate_add.
    rewrite insert_app_r_alt by (rewrite length_replicate; lia).
    by rewrite length_replicate, Nat.sub_diag. }
  assert (∀ j, (nc < j < nc + 5)%nat → background_row nc !! j = Some 0%Qc)
    as Hz.
  { intros j Hj. unfold background_row.
    rewrite lookup_app_r by (rewrite length_replicate; lia).
    rewrite length_replicate.
    destruct (j - nc)%nat as [|[|[|[|[|k]]]]] eqn:Hk;
      [lia|reflexivity..|lia]. }
  rewrite (list_insert_id (background_row nc) (nc + 1)) by (apply Hz; lia).
  rewrite (list_insert_id (background_row nc) (nc + 2)) by (apply Hz; lia).
  rewrite (list_insert_id (background_row nc) (nc + 3)) by (apply Hz; lia).
  rewrite (list_insert_id (background_row nc) (nc + 4)) by (apply Hz; lia).
  done.
Qed.

Lemma init_vec_replicate vh nc :
  init_vec vh nc = replicate vh (background_row nc).
Proof.
  unfold init_vec, np_zeros. rewrite !set_column_replicate.
  by rewrite background_row_alt.
Qed.

Lemma length_background_row nc : length (background_row nc) = (nc + 5)%nat.
Proof.
  unfold background_row. rewrite length_app, length_replicate. simpl. lia.
Qed.

Lemma init_vec_shape vh nc : vec_shape vh (nc + 5) (init_vec vh nc).
Proof.
  rewrite init_vec_replicate. split; [apply length_replicate|].
  apply Forall_replicate, length_background_row.
Qed.

Lemma init_vec_lookup vh nc i :
  (i < vh)%nat → init_vec vh nc !! i = Some (background_row nc).
Proof. intros Hi. rewrite init_vec_replicate. by apply lookup_replicate_2. Qed.

Section StateFacts.
Context `{SsdUtils}.
Implicit Types (m : gmap nat Qc) (v : Vec) (a : Attempt) (o : Score).

Lemma init_vec_one_hot vh nc : one_hot_vec nc (init_vec vh nc).
Proof.
  rewrite init_vec_replicate. apply Forall_replicate.
  rewrite background_row_class. by apply class_row_one_hot.
Qed.

(** ** The attempts of a sample *)

Lemma good_attempts_box arr bs a : a ∈ good_attempts arr bs → a.1 ∈ bs.
Proof.
  unfold good_attempts. rewrite list_elem_of_In, in_flat_map.
  intros (b & Hb & Ha). apply in_map_iff in Ha as (o & <- & _).
  simpl. by apply list_elem_of_In.
Qed.

Lemma good_attempts_score arr bs a :
  a ∈ good_attempts arr bs → a.2 ∈ good (overlap_of arr a.1).
Proof.
  unfold good_attempts. rewrite list_elem_of_In, in_flat_map.
  intros (b & Hb & Ha). apply in_map_iff in Ha as (o & <- & Ho).
  simpl. by apply list_elem_of_In.
Qed.

Lemma best_attempts_box arr bs a : a ∈ best_attempts arr bs → a.1 ∈ bs.
Proof.
  unfold best_attempts. rewrite list_elem_of_In, in_map_iff.
  intros (b & <- & Hb). simpl. by apply list_elem_of_In.
Qed.

Lemma best_attempts_score arr bs a :
  a ∈ best_attempts arr bs → a.2 = best (overlap_of arr a.1).
Proof.
  unfold best_attempts. rewrite list_elem_of_In, in_map_iff.
  by intros (b & <- & Hb).
Qed.

(** ** Invariants of the states of a pass *)

Lemma pass_states_inv (P : Vec → Prop) anchors nc l st :
  (∀ a s s', a ∈ l → P s.2 → attempt_step anchors nc a s = Ok s' → P s'.2) →
  P st.2 →
  Forall P (pass_states anchors nc l st) ∧
  ∀ st', run_attempts anchors nc l st = Ok st' → P st'.2.
Proof.
  unfold run_attempts. revert st.
  induction l as [|a l IH]; intros st Hstep HP; simpl.
  - split; [constructor|]. by intros st' [= <-].
  - destruct (attempt_step anchors nc a st) as [s1|e] eqn:Ha; simpl;
      [|split; [constructor|done]].
    assert (P s1.2) as HP1 by (eapply Hstep; [left|exact HP|exact Ha]).
    destruct (IH s1) as [Hall Hend]; [|done|].
    { intros a' s s' Ha'. apply Hstep. by right. }
    split; [by constructor|done].
Qed.

(** A call made for a box whose label lies in the one-hot segment keeps
    the array one-hot. *)
Lemma attempt_step_one_hot anchors nc vh a st st' :
  (0 ≤ labelid a.1 ≤ Z.of_nat nc)%Z →
  vec_shape vh (nc + 5) st.2 ∧ one_hot_vec nc st.2 →
  attempt_step anchors nc a st = Ok st' →
  vec_shape vh (nc + 5) st'.2 ∧ one_hot_vec nc st'.2.
Proof.
  intros Hl [Hsh Hoh] Hstep. split; [by eapply attempt_step_shape|].
  destruct st as [m v], st' as [m' v']. simpl in *.
  destruct (attempt_step_cases_shape anchors nc a vh _ _ _ _ Hsh Hstep)
    as [(s & _ & _ & _ & ->)|(_ & _ & anchor & r & _ & _ & Hr & ->)];
    [done|].
  rewrite encoded_row_in_range in Hr by done. injection Hr as <-.
  apply Forall_insert; [done|]. apply class_row_one_hot. lia.
Qed.

(** The last recorded state is the encoded array. *)
Lemma pass_states_last anchors nc l st st' :
  run_attempts anchors nc l st = Ok st' →
  list.last (st.2 :: pass_states anchors nc l st) = Some st'.2.
Proof.
  unfold run_attempts. revert st.
  induction l as [|a l IH]; intros st Hrun.
  - simpl in Hrun. by injection Hrun as <-.
  - cbn [for_each pass_states] in *.
    destruct (attempt_step anchors nc a st) as [s1|e] eqn:Ha; [|done].
    rewrite last_cons_cons. by apply IH.
Qed.

Lemma encode_states_last anchors arr nc sample v :
  encode_sample anchors arr nc sample = Ok v →
  list.last (encode_states anchors arr nc sample) = Some v.
Proof.
  rewrite encode_sample_attempts. unfold encode_states.
  destruct (run_attempts _ _ (good_attempts _ _) _) as [st1|e] eqn:H1;
    simpl; [|done].
  destruct (run_attempts _ _ (best_attempts _ _) _) as [st2|e] eqn:H2;
    simpl; [|done].
  intros [= <-].
  apply pass_states_last in H1, H2. simpl in *.
  rewrite app_comm_cons, last_app.
  destruct (pass_states anchors nc (best_attempts _ _) _) as [|x xs] eqn:Hp.
  - simpl in *. rewrite H1. done.
  - rewrite last_cons_cons in H2. by rewrite H2.
Qed.

(** The winner of a pass, by position. *)
Lemma run_attempts_wins anchors nc vh l p a m v m' v' :
  vec_shape vh (nc + 5) v →
  run_attempts anchors nc l (m, v) = Ok (m', v') →
  (∀ s, m !! idx a.2 = Some s → (s < score a.2)%Qc) →
  wins l p a →
  m' !! idx a.2 = Some (score a.2) ∧
  ∃ anchor r, anchors !! idx a.2 = Some anchor ∧
              encoded_row nc a.1 anchor = Ok r ∧ v' !! idx a.2 = Some r.
Proof.
  intros Hsh Hrun Hm (Hp & Hpre & Hpost). destruct a as [box o].
  rewrite <-(take_drop_middle l p (box, o)) in Hrun by done.
  eapply run_attempts_winner; [exact Hsh|exact Hrun|exact Hm| |].
  - intros a Ha. by eapply (proj1 (list.Forall_forall _ _) Hpre).
  - intros a Ha. by eapply (proj1 (list.Forall_forall _ _) Hpost).
Qed.

End StateFacts.

(** ** Properties of the encoding *)

Section EncodingFacts.
Context `{SsdUtils}.
Implicit Types (m : gmap nat Qc) (v : Vec) (a : Attempt) (o : Score).

(** A row that [write_row] accepts has the width [num_classes + 5]. *)
Lemma write_row_ok_length box anchor nc (row r : list Qc) :
  write_row box anchor nc row = Ok r → length row = (nc + 5)%nat.
Proof.
  unfold write_row, set_cell.
  destruct (py_index _ _) as [k|] eqn:Hk; [simpl|done].
  apply py_index_lt in Hk. rewrite length_fill_prefix in Hk.
  unfold set_suffix. case_bool_decide as Hlen; [|done]. intros _.
  rewrite length_drop, length_insert, length_fill_prefix in Hlen.
  change (length (loc_cells _)) with 4%nat in Hlen. lia.
Qed.

(** [process_overlap] writes no other row than the one of its anchor. *)
Lemma process_overlap_frame o box anchor m nc v m' v' i :
  idx o ≠ i →
  process_overlap o box anchor m nc v = Ok (m', v') → v' !! i = v !! i.
Proof.
  intros Hne. unfold process_overlap.
  destruct (match m !! idx o with Some s => _ | None => _ end).
  - by intros [= <- <-].
  - destruct (v !! idx o) as [row|]; [|done].
    destruct (write_row box anchor nc row) as [r|]; [simpl|done].
    intros [= <- <-]. by apply list_lookup_insert_ne.
Qed.

(** [process_overlap] keeps a one-hot array one-hot. *)
Lemma process_overlap_one_hot o box anchor m nc v m' v' :
  (0 ≤ labelid box ≤ Z.of_nat nc)%Z →
  one_hot_vec nc v →
  process_overlap o box anchor m nc v = Ok (m', v') → one_hot_vec nc v'.
Proof.
  intros Hl Hoh. unfold process_overlap.
  destruct (match m !! idx o with Some s => _ | None => _ end).
  - by intros [= <- <-].
  - destruct (v !! idx o) as [row|]; [|done].
    destruct (write_row box anchor nc row) as [r|] eqn:Hr; [simpl|done].
    intros [= <- <-]. apply Forall_insert; [done|].
    pose proof (write_row_ok_length _ _ _ _ _ Hr) as Hlen.
    rewrite write_row_encoded, encoded_row_in_range in Hr by done.
    injection Hr as <-. apply class_row_one_hot. lia.
Qed.

Lemma encode_sample_passes anchors arr nc sample v :
  encode_sample anchors arr nc sample = Ok v →
  ∃ m1 v1 m2,
    good_pass anchors nc (compute_overlaps arr (boxes sample)) (boxes sample)
      (∅, init_vec (length anchors) nc) = Ok (m1, v1) ∧
    best_pass anchors nc (compute_overlaps arr (boxes sample)) (boxes sample)
      (∅, v1) = Ok (m2, v).
Proof.
  unfold encode_sample.
  destruct (good_pass _ _ _ _ _) as [[m1 v1]|e]; simpl; [|done].
  destruct (best_pass _ _ _ _ _) as [[m2 v2]|e] eqn:Hb; simpl; [|done].
  intros [= <-]. by exists m1, v1, m2.
Qed.

(** The winner of the best attempts owns its anchor in the encoded array,
    whatever the first pass recorded: the second pass starts from an empty
    table. *)
Lemma encode_sample_best_winner anchors arr nc sample v p a :
  encode_sample anchors arr nc sample = Ok v →
  wins (best_attempts arr (boxes sample)) p a →
  ∃ m1 v1 m2,
    good_pass anchors nc (compute_overlaps arr (boxes sample)) (boxes sample)
      (∅, init_vec (length anchors) nc) = Ok (m1, v1) ∧
    best_pass anchors nc (compute_overlaps arr (boxes sample)) (boxes sample)
      (∅, v1) = Ok (m2, v) ∧
    m2 !! idx a.2 = Some (score a.2) ∧
    ∃ anchor r, anchors !! idx a.2 = Some anchor ∧
                encoded_row nc a.1 anchor = Ok r ∧ v !! idx a.2 = Some r.
Proof.
  intros Henc Hw.
  apply encode_sample_passes in Henc as (m1 & v1 & m2 & Hg & Hb).
  exists m1, v1, m2. split; [done|]. split; [done|].
  rewrite good_pass_attempts in Hg. rewrite best_pass_attempts in Hb.
  apply (run_attempts_shape _ _ _ (length anchors)) in Hg;
    [|apply init_vec_shape].
  eapply (run_attempts_wins anchors nc (length anchors));
    [exact Hg|exact Hb|done|exact Hw].
Qed.


(** C3.  When the label of every box of a sample lies in the one-hot
    segment, every state of the array is one-hot: the array after its
    initialisation, the array after every call of [process_overlap], and so
    the encoded array; and any call of [process_overlap] for such a box
    keeps a one-hot array one-hot. *)
Theorem one_hot_at_all_times
    (anchors : list Anchor) (arr : list (list Qc)) (nc : nat)
    (sample : Sample) :
  labels_ok nc (boxes sample) →
  one_hot_vec nc (init_vec (length anchors) nc) ∧
  Forall (one_hot_vec nc) (encode_states anchors arr nc sample) ∧
  (∀ v, encode_sample anchors arr nc sample = Ok v →
        list.last (encode_states anchors arr nc sample) = Some v ∧
        one_hot_vec nc v) ∧
  (∀ o box anchor m v m' v',
     box ∈ boxes sample → one_hot_vec nc v →
     process_overlap o box anchor m nc v = Ok (m', v') → one_hot_vec nc v').
Proof.
  intros Hlab.
  assert (∀ b, b ∈ boxes sample → (0 ≤ labelid b ≤ Z.of_nat nc)%Z) as Hl.
  { by apply list.Forall_forall. }
  assert (Forall (one_hot_vec nc) (encode_states anchors arr nc sample))
    as Hstates.
  { unfold encode_states.
    set (P := fun v : Vec =>
                vec_shape (length anchors) (nc + 5) v ∧ one_hot_vec nc v).
    assert (P (init_vec (length anchors) nc)) as HP0.
    { split; [apply init_vec_shape|apply init_vec_one_hot]. }
    destruct (pass_states_inv P anchors nc
                (good_attempts arr (boxes sample))
                (∅, init_vec (length anchors) nc)) as [Hall1 Hend1];
      [|done|].
    { intros a s s' Ha. apply attempt_step_one_hot.
      apply Hl. by eapply good_attempts_box. }
    constructor; [apply init_vec_one_hot|].
    apply Forall_app. split.
    { eapply Forall_impl; [|exact Hall1]. by intros v [_ ?]. }
    destruct (run_attempts _ _ (good_attempts _ _) _) as [st1|e] eqn:Hrun1;
      [|constructor].
    destruct (pass_states_inv P anchors nc
                (best_attempts arr (boxes sample)) (∅, st1.2))
      as [Hall2 _]; [|exact (Hend1 st1 eq_refl)|].
    { intros a s s' Ha. apply attempt_step_one_hot.
      apply Hl. by eapply best_attempts_box. }
    eapply Forall_impl; [|exact Hall2]. by intros v [_ ?]. }
  split; [apply init_vec_one_hot|]. split; [done|]. split.
  - intros v Henc. pose proof (encode_states_last _ _ _ _ _ Henc) as Hlast.
    split; [done|].
    apply last_Some in Hlast as [l' Hl'].
    rewrite Hl' in Hstates. apply Forall_app in Hstates as [_ Hv].
    by apply Forall_inv in Hv.
  - intros o box anchor m v m' v' Hbox. apply process_overlap_one_hot.
    by apply Hl.
Qed.

(** C5.  Every row of the initial array is the background row, a call of
    [process_overlap] writes no other row than the one of its anchor, and an
    anchor that is in no good list and is no best anchor keeps the
    background row in the encoded array. *)
Theorem untouched_rows_stay_background
    (anchors : list Anchor) (arr : list (list Qc)) (nc : nat)
    (sample : Sample) (v : Vec) (i : nat) :
  encode_sample anchors arr nc sample = Ok v →
  (i < length anchors)%nat →
  untouched (good_attempts arr (boxes sample)) i →
  untouched (best_attempts arr (boxes sample)) i →
  init_vec (length anchors) nc
    = replicate (length anchors) (background_row nc) ∧
  (∀ o box anchor m v0 m' v',
     idx o ≠ i → process_overlap o box anchor m nc v0 = Ok (m', v') →
     v' !! i = v0 !! i) ∧
  v !! i = Some (background_row nc).
Proof.
  intros Henc Hi Hg Hb. split; [apply init_vec_replicate|]. split.
  { intros o box anchor m v0 m' v'. apply process_overlap_frame. }
  apply encode_sample_passes in Henc as (m1 & v1 & m2 & Hg1 & Hb1).
  rewrite good_pass_attempts in Hg1. rewrite best_pass_attempts in Hb1.
  destruct (run_attempts_keep _ _ _ i _ _ _ _ Hg1) as [_ Hv1].
  { intros a Ha Hia.
    by destruct (proj1 (list.Forall_forall _ _) Hg a Ha). }
  destruct (run_attempts_keep _ _ _ i _ _ _ _ Hb1) as [_ Hv].
  { intros a Ha Hia.
    by destruct (proj1 (list.Forall_forall _ _) Hb a Ha). }
  rewrite Hv, Hv1. by apply init_vec_lookup.
Qed.

(** C4, as amended.  The box whose best attempt wins its anchor among the
    best attempts of the sample has the row of its best anchor carry its
    class in the encoded array, whether or not it overlaps an anchor at the
    threshold. *)
Theorem best_anchor_of_winner_carries_class
    (anchors : list Anchor) (arr : list (list Qc)) (nc : nat)
    (sample : Sample) (v : Vec) (p : nat) (box : Box) :
  encode_sample anchors arr nc sample = Ok v →
  (0 ≤ labelid box ≤ Z.of_nat nc)%Z →
  wins (best_attempts arr (boxes sample)) p
       (box, best (overlap_of arr box)) →
  boxes sample !! p = Some box ∧
  ∃ row, v !! idx (best (overlap_of arr box)) = Some row ∧
         has_class box row = true.
Proof.
  intros Henc Hl Hw. split.
  { destruct Hw as (Hp & _). unfold best_attempts in Hp.
    rewrite list_lookup_fmap in Hp.
    destruct (boxes sample !! p) as [b|]; [|done].
    simpl in Hp. by injection Hp as ->. }
  destruct (encode_sample_best_winner _ _ _ _ _ _ _ Henc Hw)
    as (_ & _ & _ & _ & _ & _ & anchor & r & _ & Hr & Hv). simpl in *.
  rewrite encoded_row_in_range in Hr by done. injection Hr as <-.
  eexists. split; [exact Hv|]. by apply class_row_has_class.
Qed.

End EncodingFacts.

(** ** Strings and paths *)

Lemma list_ascii_of_string_app s t :
  list_ascii_of_string (s +:+ t)
  = list_ascii_of_string s ++ list_ascii_of_string t.
Proof. induction s as [|c s IH]; [done|]. cbn. by rewrite <-IH. Qed.

Lemma list_ascii_of_string_inj s t :
  list_ascii_of_string s = list_ascii_of_string t → s = t.
Proof.
  intros Heq. rewrite <-(string_of_list_ascii_of_string s).
  rewrite <-(string_of_list_ascii_of_string t). by rewrite Heq.
Qed.

Lemma string_app_inv_tail s1 s2 t : s1 +:+ t = s2 +:+ t → s1 = s2.
Proof.
  intros Heq. apply list_ascii_of_string_inj.
  apply (f_equal list_ascii_of_string) in Heq.
  rewrite !list_ascii_of_string_app in Heq. by apply app_inv_tail in Heq.
Qed.

Lemma last_char_app s t :
  last_char (s +:+ t)
  = match last_char t with Some c => Some c | None => last_char s end.
Proof. unfold last_char. by rewrite list_ascii_of_string_app, last_app. Qed.

Lemma gt_path_inj data_dir name s1 s2 :
  gt_path data_dir name s1 = gt_path data_dir name s2 ↔
  basename (filename s1) = basename (filename s2).
Proof.
  unfold gt_path. split; [|by intros ->].
  intros Heq. apply (inj (String.app _)) in Heq.
  by apply string_app_inv_tail in Heq.
Qed.

Lemma gt_path_not_samples_pkl data_dir name name' sample :
  gt_path data_dir name sample ≠ samples_pkl data_dir name'.
Proof.
  intros Heq. apply (f_equal last_char) in Heq.
  unfold gt_path, samples_pkl in Heq.
  rewrite !last_char_app in Heq. by vm_compute in Heq.
Qed.

Lemma string_app_assoc (s t u : string) : (s +:+ t) +:+ u = s +:+ t +:+ u.
Proof.
  apply list_ascii_of_string_inj.
  by rewrite !list_ascii_of_string_app, app_assoc.
Qed.

(** The path of a vector, spelled out. *)
Lemma gt_path_spelled data_dir name sample :
  gt_path data_dir name sample
  = data_dir +:+ "/ground_truth/" +:+ strip name +:+ "/" +:+
    basename (filename sample) +:+ ".npy".
Proof. unfold gt_path, gt_dir. by rewrite !string_app_assoc. Qed.

(** ** The saves of a split *)

Lemma save_all_snoc data_dir name l sv wd :
  save_all data_dir name (l ++ [sv]) wd
  = np_save (gt_path data_dir name sv.1) sv.2 (save_all data_dir name l wd).
Proof. unfold save_all. by rewrite foldl_app. Qed.

Lemma save_all_trace data_dir name l wd :
  trace (save_all data_dir name l wd)
  = trace wd ++ ((fun sv => NpSave (gt_path data_dir name sv.1) sv.2) <$> l).
Proof.
  induction l as [|sv l IH] using rev_ind.
  - simpl. by rewrite app_nil_r.
  - rewrite save_all_snoc, fmap_app. simpl. rewrite IH.
    by rewrite <-app_assoc.
Qed.

Lemma save_all_dirs data_dir name l wd :
  dirs (save_all data_dir name l wd) = dirs wd.
Proof.
  induction l as [|sv l IH] using rev_ind; [done|].
  by rewrite save_all_snoc.
Qed.

(** A path that is the path of no saved vector keeps its file. *)
Lemma save_all_files_other data_dir name l wd path :
  Forall (fun sv => gt_path data_dir name sv.1 ≠ path) l →
  files (save_all data_dir name l wd) !! path = files wd !! path.
Proof.
  induction l as [|sv l IH] using rev_ind; [done|].
  intros [Hl Hsv%Forall_inv]%Forall_app.
  rewrite save_all_snoc. simpl. rewrite lookup_insert_ne by done. by apply IH.
Qed.

(** The file at a path is the last vector saved there. *)
Lemma save_all_files_last data_dir name l1 s v l2 wd :
  Forall (fun sv => gt_path data_dir name sv.1 ≠ gt_path data_dir name s) l2 →
  files (save_all data_dir name (l1 ++ (s, v) :: l2) wd)
    !! gt_path data_dir name s = Some (NpyFile v).
Proof.
  induction l2 as [|sv l2 IH] using rev_ind.
  - intros _. rewrite save_all_snoc. simpl. apply lookup_insert_eq.
  - intros [Hl Hsv%Forall_inv]%Forall_app.
    rewrite app_comm_cons, app_assoc, save_all_snoc. simpl.
    rewrite lookup_insert_ne by done. by apply IH.
Qed.

(** Every saved vector leaves a vector file at its path. *)
Lemma save_all_files_some data_dir name l s v wd :
  (s, v) ∈ l →
  ∃ v', files (save_all data_dir name l wd) !! gt_path data_dir name s
        = Some (NpyFile v').
Proof.
  induction l as [|sv l IH] using rev_ind.
  - by intros ?%elem_of_nil.
  - intros Hin. rewrite save_all_snoc. simpl.
    destruct (decide (gt_path data_dir name sv.1 = gt_path data_dir name s))
      as [Heq|Hne].
    + exists sv.2. rewrite Heq. apply lookup_insert_eq.
    + rewrite lookup_insert_ne by done. apply IH.
      apply elem_of_app in Hin as [?|Hin]; [done|].
      apply list_elem_of_singleton in Hin. by subst sv.
Qed.

Section ComputeGtFacts.
Context `{SsdUtils}.

Lemma encode_all_Forall2 anchors arr nc samples vecs :
  encode_all anchors arr nc samples = Ok vecs ↔
  Forall2 (fun s v => encode_sample anchors arr nc s = Ok v) samples vecs.
Proof.
  revert vecs. induction samples as [|s samples IH]; intros vecs; simpl.
  - split; [by intros [= <-]; constructor|by intros ->%Forall2_nil_inv_l].
  - split.
    + destruct (encode_sample anchors arr nc s) as [v|e] eqn:Hs; [simpl|done].
      destruct (encode_all anchors arr nc samples) as [vs|e] eqn:Hvs;
        [simpl|done].
      intros [= <-]. constructor; [done|]. by apply IH.
    + intros (v & vs & Hv & Hvs & ->)%Forall2_cons_inv_l.
      rewrite Hv. simpl. apply IH in Hvs. by rewrite Hvs.
Qed.

Lemma encode_all_total anchors arr nc samples :
  Forall (fun s => is_ok (encode_sample anchors arr nc s)) samples →
  ∃ vecs, encode_all anchors arr nc samples = Ok vecs.
Proof.
  induction 1 as [|s samples Hs _ [vs IH]]; simpl; [by eexists|].
  destruct (encode_sample anchors arr nc s) as [v|e]; [|done].
  rewrite IH. simpl. by eexists.
Qed.

(** [compute_gt] encodes every sample, saves the vectors in order and dumps
    the manifest. *)
Lemma compute_gt_eq data_dir samples anchors nc name wd :
  compute_gt data_dir samples anchors nc name wd =
    (vecs ← encode_all anchors (anchors2array anchors img_size) nc samples;
     Ok (pickle_dump (samples_pkl data_dir name)
           (SamplesPkl (manifest data_dir name samples))
           (save_all data_dir name (zip samples vecs)
              (with_gt_dir data_dir name wd)))).
Proof.
  unfold compute_gt.
  change (if path_exists _ wd then wd else _)
    with (with_gt_dir data_dir name wd).
  generalize (with_gt_dir data_dir name wd) as wd0.
  change (data_dir +:+ "/" +:+ strip name +:+ "-samples.pkl")
    with (samples_pkl data_dir name).
  enough (∀ (sl : list (Sample * string)) wd0,
    for_each samples (fun sample '(wd, sample_list) =>
      vec ← encode_sample anchors (anchors2array anchors img_size) nc sample;
      Ok (np_save (gt_path data_dir name sample) vec wd,
          sample_list ++ [(sample, gt_path data_dir name sample)]))
      (wd0, sl)
    = (vecs ← encode_all anchors (anchors2array anchors img_size) nc samples;
       Ok (save_all data_dir name (zip samples vecs) wd0,
           sl ++ manifest data_dir name samples))) as Hloop.
  { intros wd0.
    change (for_each samples _ (wd0, []))
      with (for_each samples (fun sample '(wd, sample_list) =>
        vec ← encode_sample anchors (anchors2array anchors img_size) nc sample;
        Ok (np_save (gt_path data_dir name sample) vec wd,
            sample_list ++ [(sample, gt_path data_dir name sample)]))
        (wd0, [])).
    rewrite Hloop.
    by destruct (encode_all _ _ _ _) as [vecs|e]. }
  induction samples as [|s samples IH]; intros sl wd0; simpl.
  - by rewrite app_nil_r.
  - destruct (encode_sample _ _ _ s) as [v|e]; simpl; [|done].
    rewrite IH.
    destruct (encode_all _ _ _ samples) as [vecs|e]; simpl; [|done].
    by rewrite <-app_assoc.
Qed.

End ComputeGtFacts.

(** ** Properties of [compute_gt] and [main] *)

Section OutputFacts.
Context `{SsdUtils}.

Lemma compute_gt_inv data_dir samples anchors nc name wd wd' :
  compute_gt data_dir samples anchors nc name wd = Ok wd' →
  ∃ vecs,
    Forall2 (fun s v => encode_sample anchors (anchors2array anchors img_size)
                          nc s = Ok v) samples vecs ∧
    wd' = pickle_dump (samples_pkl data_dir name)
            (SamplesPkl (manifest data_dir name samples))
            (save_all data_dir name (zip samples vecs)
               (with_gt_dir data_dir name wd)).
Proof.
  rewrite compute_gt_eq.
  destruct (encode_all _ _ _ _) as [vecs|e] eqn:Hall; simpl; [|done].
  intros [= <-]. exists vecs. split; [|done]. by apply encode_all_Forall2.
Qed.

Lemma compute_gt_total data_dir samples anchors nc name wd :
  Forall (fun s => is_ok (encode_sample anchors
                            (anchors2array anchors img_size) nc s)) samples →
  ∃ wd', compute_gt data_dir samples anchors nc name wd = Ok wd'.
Proof.
  intros Hok. destruct (encode_all_total _ _ _ _ Hok) as [vecs Hall].
  rewrite compute_gt_eq, Hall. simpl. by eexists.
Qed.

Lemma zip_lookup_elem (samples : list Sample) (vecs : list Vec) i s v :
  samples !! i = Some s → vecs !! i = Some v → (s, v) ∈ zip samples vecs.
Proof.
  intros Hs Hv. apply list_elem_of_lookup. exists i.
  rewrite lookup_zip_with, Hs. simpl. by rewrite Hv.
Qed.

Lemma manifest_lookup data_dir name samples i s :
  samples !! i = Some s →
  manifest data_dir name samples !! i = Some (s, gt_path data_dir name s).
Proof. intros Hs. unfold manifest. by rewrite list_lookup_fmap, Hs. Qed.

(** The file at the path of a sample holds the vector of the last sample
    with that path. *)
Lemma compute_gt_file_of_last data_dir samples anchors nc name wd wd' j s :
  compute_gt data_dir samples anchors nc name wd = Ok wd' →
  samples !! j = Some s →
  (∀ k s', (j < k)%nat → samples !! k = Some s' →
           basename (filename s') ≠ basename (filename s)) →
  ∃ v, encode_sample anchors (anchors2array anchors img_size) nc s = Ok v ∧
       files wd' !! gt_path data_dir name s = Some (NpyFile v).
Proof.
  intros (vecs & Hvecs & ->)%compute_gt_inv Hj Hlast.
  destruct (Forall2_lookup_l _ _ _ _ _ Hvecs Hj) as (v & Hv & Henc).
  exists v. split; [done|]. simpl.
  rewrite lookup_insert_ne by (intros Heq; symmetry in Heq;
                               by apply gt_path_not_samples_pkl in Heq).
  rewrite <-(take_drop_middle (zip samples vecs) j (s, v))
    by (rewrite lookup_zip_with, Hj; simpl; by rewrite Hv).
  apply save_all_files_last. apply list.Forall_forall.
  intros [s' v'] Hin Heq. simpl in Heq. apply gt_path_inj in Heq.
  apply list_elem_of_lookup in Hin as [k Hk].
  rewrite lookup_drop, lookup_zip_with in Hk.
  apply bind_Some in Hk as (s'' & Hs'' & Hk).
  apply bind_Some in Hk as (v'' & Hv'' & Hk).
  injection Hk as <- <-.
  apply (Hlast (S j + k)%nat s''); [lia|done|done].
Qed.

(** C6.  When every sample of a split can be encoded, [compute_gt]
    returns; it saves one vector per sample, in the order of the samples,
    each at [<data_dir>/ground_truth/<split>/<basename>.npy], and then dumps
    at [<data_dir>/<split>-samples.pkl] the manifest, which pairs every
    sample, in the same order, with the path its vector was saved to.  After
    the run a vector file is at the path of every sample, and it holds the
    vector of that very sample when the base names of the samples are
    distinct. *)
Theorem one_vector_and_one_entry_per_sample
    (data_dir : string) (samples : list Sample) (anchors : list Anchor)
    (nc : nat) (name : string) (wd : World) :
  Forall (fun s => is_ok (encode_sample anchors
                            (anchors2array anchors img_size) nc s)) samples →
  ∃ vecs wd',
    compute_gt data_dir samples anchors nc name wd = Ok wd' ∧
    Forall2 (fun s v => encode_sample anchors (anchors2array anchors img_size)
                          nc s = Ok v) samples vecs ∧
    trace wd' =
      trace (with_gt_dir data_dir name wd) ++
      ((fun sv => NpSave (gt_path data_dir name sv.1) sv.2)
         <$> zip samples vecs) ++
      [PickleDump (samples_pkl data_dir name)
         (SamplesPkl (manifest data_dir name samples))] ∧
    files wd' !! samples_pkl data_dir name
      = Some (SamplesPkl (manifest data_dir name samples)) ∧
    samples_pkl data_dir name
      = data_dir +:+ "/" +:+ strip name +:+ "-samples.pkl" ∧
    length (manifest data_dir name samples) = length samples ∧
    (∀ i s, samples !! i = Some s →
       manifest data_dir name samples !! i
         = Some (s, gt_path data_dir name s) ∧
       gt_path data_dir name s
         = data_dir +:+ "/ground_truth/" +:+ strip name +:+ "/" +:+
           basename (filename s) +:+ ".npy" ∧
       ∃ v, vecs !! i = Some v ∧
            ∃ v', files wd' !! gt_path data_dir name s = Some (NpyFile v')) ∧
    (NoDup ((fun s => basename (filename s)) <$> samples) →
     ∀ i s v, samples !! i = Some s → vecs !! i = Some v →
              files wd' !! gt_path data_dir name s = Some (NpyFile v)).
Proof.
  intros Hok. destruct (encode_all_total _ _ _ _ Hok) as [vecs Hall].
  exists vecs.
  destruct (compute_gt_total data_dir _ _ _ name wd Hok) as [wd' Hgt].
  exists wd'. split; [done|].
  pose proof Hgt as Hgt'. rewrite compute_gt_eq, Hall in Hgt'.
  simpl in Hgt'. injection Hgt' as Hwd'.
  apply encode_all_Forall2 in Hall.
  split; [done|]. split.
  { rewrite <-Hwd'. simpl. rewrite save_all_trace. by rewrite <-app_assoc. }
  split; [rewrite <-Hwd'; apply lookup_insert_eq|]. split; [done|].
  split; [unfold manifest; by rewrite length_fmap|]. split.
  - intros i s Hs. split; [by apply manifest_lookup|].
    split; [apply gt_path_spelled|].
    destruct (Forall2_lookup_l _ _ _ _ _ Hall Hs) as (v & Hv & _).
    exists v. split; [done|]. rewrite <-Hwd'. simpl.
    rewrite lookup_insert_ne by (intros Heq; symmetry in Heq;
                                 by apply gt_path_not_samples_pkl in Heq).
    eapply save_all_files_some, zip_lookup_elem; done.
  - intros Hnd i s v Hs Hv.
    destruct (compute_gt_file_of_last _ _ _ _ _ _ _ i s Hgt Hs)
      as (v' & Hv' & Hfile).
    { intros k s' Hk Hs' Heq.
      assert (i = k) as ->; [|lia].
      eapply (NoDup_lookup _ i k); [exact Hnd| |].
      - by rewrite list_lookup_fmap, Hs.
      - rewrite list_lookup_fmap, Hs'. simpl. by rewrite Heq. }
    destruct (Forall2_lookup_l _ _ _ _ _ Hall Hs) as (v'' & Hv'' & Henc).
    congruence.
Qed.

(** The encoding of the code is the encoding on the canvas [img_size]. *)
Lemma encode_sample_canvas anchors nc sample :
  encode_sample anchors (anchors2array anchors img_size) nc sample
  = canvas_encoding img_size anchors nc (boxes sample).
Proof. by rewrite encode_sample_attempts. Qed.

(** C8.  The vectors [compute_gt] saves are encoded on the canvas of 1000 by
    1000: for every sample the boxes and the anchors are converted on that
    canvas before the scorer is called, and the size of the image plays no
    part.  So two samples of a run with the same boxes get the same vector,
    whatever their sizes. *)
Theorem fixed_reference_canvas
    (data_dir : string) (samples : list Sample) (anchors : list Anchor)
    (nc : nat) (name : string) (wd wd' : World) :
  compute_gt data_dir samples anchors nc name wd = Ok wd' →
  ∃ vecs,
    trace wd' =
      trace (with_gt_dir data_dir name wd) ++
      ((fun sv => NpSave (gt_path data_dir name sv.1) sv.2)
         <$> zip samples vecs) ++
      [PickleDump (samples_pkl data_dir name)
         (SamplesPkl (manifest data_dir name samples))] ∧
    Forall2 (fun s v =>
               canvas_encoding (mk_Size 1000 1000) anchors nc (boxes s) = Ok v)
            samples vecs ∧
    (∀ i j s1 s2 v1 v2,
       samples !! i = Some s1 → samples !! j = Some s2 →
       vecs !! i = Some v1 → vecs !! j = Some v2 →
       boxes s1 = boxes s2 → v1 = v2).
Proof.
  intros (vecs & Hvecs & ->)%compute_gt_inv. exists vecs.
  assert (Forall2 (fun s v =>
            canvas_encoding (mk_Size 1000 1000) anchors nc (boxes s) = Ok v)
            samples vecs) as Hcanvas.
  { eapply list.Forall2_impl; [exact Hvecs|].
    intros s v Hs.
    exact (eq_trans (eq_sym (encode_sample_canvas anchors nc s)) Hs). }
  split; [|split; [exact Hcanvas|]].
  - simpl. rewrite save_all_trace. by rewrite <-app_assoc.
  - intros i j s1 s2 v1 v2 Hi Hj Hv1 Hv2 Hb.
    destruct (Forall2_lookup_l _ _ _ _ _ Hcanvas Hi) as (v1' & Hv1' & He1).
    destruct (Forall2_lookup_l _ _ _ _ _ Hcanvas Hj) as (v2' & Hv2' & He2).
    rewrite Hb in He1. congruence.
Qed.

Lemma empty_sample_of_run data_dir samples anchors nc name wd wd' sample :
  compute_gt data_dir samples anchors nc name wd = Ok wd' →
  sample ∈ samples →
  boxes sample = [] →
  encode_sample anchors (anchors2array anchors img_size) nc sample
    = Ok (replicate (length anchors) (background_row nc)) ∧
  NpSave (gt_path data_dir name sample)
         (replicate (length anchors) (background_row nc)) ∈ trace wd' ∧
  ∃ l, files wd' !! samples_pkl data_dir name = Some (SamplesPkl l) ∧
       (sample, gt_path data_dir name sample) ∈ l.
Proof.
  intros (vecs & Hvecs & ->)%compute_gt_inv Hin Hb.
  assert (encode_sample anchors (anchors2array anchors img_size) nc sample
          = Ok (replicate (length anchors) (background_row nc))) as Henc.
  { unfold encode_sample. rewrite Hb. simpl. by rewrite init_vec_replicate. }
  split; [done|].
  apply list_elem_of_lookup in Hin as [i Hi].
  destruct (Forall2_lookup_l _ _ _ _ _ Hvecs Hi) as (v & Hv & Hv').
  rewrite Henc in Hv'. injection Hv' as <-.
  split.
  - simpl. apply elem_of_app. left. rewrite save_all_trace.
    apply elem_of_app. right.
    apply (list_elem_of_fmap_2
             (fun sv => NpSave (gt_path data_dir name sv.1) sv.2) _
             (sample, replicate (length anchors) (background_row nc))).
    by eapply zip_lookup_elem.
  - eexists. split; [apply lookup_insert_eq|].
    apply list_elem_of_lookup. exists i. by apply manifest_lookup.
Qed.

(** C9.  A sample without boxes is not skipped.  Its encoding returns the
    array in which every row is the background row, without computing an
    overlap; and when every sample of the split can be encoded,
    [compute_gt] returns, having saved that array at the path of the sample
    and dumped a manifest that has the entry of the sample. *)
Theorem empty_sample_is_saved
    (data_dir : string) (samples : list Sample) (anchors : list Anchor)
    (nc : nat) (name : string) (wd : World) (sample : Sample) :
  Forall (fun s => is_ok (encode_sample anchors
                            (anchors2array anchors img_size) nc s)) samples →
  sample ∈ samples →
  boxes sample = [] →
  compute_overlaps (anchors2array anchors img_size) (boxes sample) = [] ∧
  encode_sample anchors (anchors2array anchors img_size) nc sample
    = Ok (replicate (length anchors) (background_row nc)) ∧
  ∃ wd',
    compute_gt data_dir samples anchors nc name wd = Ok wd' ∧
    NpSave (gt_path data_dir name sample)
           (replicate (length anchors) (background_row nc)) ∈ trace wd' ∧
    ∃ l, files wd' !! samples_pkl data_dir name = Some (SamplesPkl l) ∧
         (sample, gt_path data_dir name sample) ∈ l.
Proof.
  intros Hok Hin Hb.
  destruct (compute_gt_total data_dir _ _ _ name wd Hok) as [wd' Hgt].
  destruct (empty_sample_of_run _ _ _ _ _ _ _ _ Hgt Hin Hb)
    as (Henc & Hsave & Hl).
  split; [by rewrite Hb|]. split; [done|]. by exists wd'.
Qed.

Lemma shared_path_of_run data_dir samples anchors nc name wd wd' j s2 :
  compute_gt data_dir samples anchors nc name wd = Ok wd' →
  samples !! j = Some s2 →
  (∀ k s, (j < k)%nat → samples !! k = Some s →
          basename (filename s) ≠ basename (filename s2)) →
  ∃ v2 l,
    encode_sample anchors (anchors2array anchors img_size) nc s2 = Ok v2 ∧
    files wd' !! gt_path data_dir name s2 = Some (NpyFile v2) ∧
    files wd' !! samples_pkl data_dir name = Some (SamplesPkl l) ∧
    l !! j = Some (s2, gt_path data_dir name s2) ∧
    (∀ i s1, samples !! i = Some s1 →
             basename (filename s1) = basename (filename s2) →
             gt_path data_dir name s1 = gt_path data_dir name s2 ∧
             l !! i = Some (s1, gt_path data_dir name s2)) ∧
    (NoDup ((fun s => basename (filename s)) <$> samples) → NoDup (l.*2)).
Proof.
  intros Hgt Hj Hlast.
  destruct (compute_gt_file_of_last _ _ _ _ _ _ _ _ _ Hgt Hj Hlast)
    as (v2 & Henc & Hfile).
  exists v2, (manifest data_dir name samples).
  split; [done|]. split; [done|].
  apply compute_gt_inv in Hgt as (vecs & _ & ->).
  split; [apply lookup_insert_eq|].
  split; [by apply manifest_lookup|]. split.
  - intros i s1 Hi Hbase.
    assert (gt_path data_dir name s1 = gt_path data_dir name s2) as Hp
      by by apply gt_path_inj.
    split; [done|]. rewrite <-Hp. by apply manifest_lookup.
  - intros Hnd. unfold manifest. rewrite <-list_fmap_compose.
    apply (NoDup_fmap_2_strong _ samples).
    + intros s s' Hs Hs' Heq. simpl in Heq.
      apply gt_path_inj in Heq.
      apply list_elem_of_lookup in Hs as [a Ha].
      apply list_elem_of_lookup in Hs' as [b Hb].
      assert (a = b) as ->; [|congruence].
      eapply (NoDup_lookup _ a b); [exact Hnd| |].
      * by rewrite list_lookup_fmap, Ha.
      * rewrite list_lookup_fmap, Hb. simpl. by rewrite Heq.
    + by apply NoDup_fmap_1 in Hnd.
Qed.

(** C10.  The path of a vector depends on the base name of the file of the
    sample only.  When every sample of the split can be encoded,
    [compute_gt] returns, and then: the file at the path of a sample that
    is the last of its base name holds the vector of that sample, so a later
    sample replaces the file of an earlier one of the same base name; every
    sample of that base name has an entry with this same path in the
    manifest; and the paths of the manifest are distinct when the base
    names of the samples are. *)
Theorem equal_basenames_share_a_path
    (data_dir : string) (samples : list Sample) (anchors : list Anchor)
    (nc : nat) (name : string) (wd : World) (j : nat) (s2 : Sample) :
  Forall (fun s => is_ok (encode_sample anchors
                            (anchors2array anchors img_size) nc s)) samples →
  samples !! j = Some s2 →
  (∀ k s, (j < k)%nat → samples !! k = Some s →
          basename (filename s) ≠ basename (filename s2)) →
  ∃ wd' v2 l,
    compute_gt data_dir samples anchors nc name wd = Ok wd' ∧
    encode_sample anchors (anchors2array anchors img_size) nc s2 = Ok v2 ∧
    files wd' !! gt_path data_dir name s2 = Some (NpyFile v2) ∧
    files wd' !! samples_pkl data_dir name = Some (SamplesPkl l) ∧
    l !! j = Some (s2, gt_path data_dir name s2) ∧
    (∀ i s1, samples !! i = Some s1 →
             basename (filename s1) = basename (filename s2) →
             gt_path data_dir name s1 = gt_path data_dir name s2 ∧
             l !! i = Some (s1, gt_path data_dir name s2)) ∧
    (NoDup ((fun s => basename (filename s)) <$> samples) → NoDup (l.*2)).
Proof.
  intros Hok Hj Hlast.
  destruct (compute_gt_total data_dir _ _ _ name wd Hok) as [wd' Hgt].
  destruct (shared_path_of_run _ _ _ _ _ _ _ _ _ Hgt Hj Hlast)
    as (v2 & l & Hrest).
  by exists wd', v2, l.
Qed.

End OutputFacts.

(** ** The encoding returns on well-formed samples *)

Section Totality.
Context `{SsdUtils}.

Lemma py_index_is_Some width j :
  (- Z.of_nat width ≤ j < Z.of_nat width)%Z → is_Some (py_index width j).
Proof.
  intros Hj. unfold py_index. repeat case_bool_decide; eauto. lia.
Qed.

Lemma attempt_step_total anchors nc a m v :
  vec_shape (length anchors) (nc + 5) v →
  (idx a.2 < length anchors)%nat →
  (- Z.of_nat (nc + 5) ≤ labelid a.1 < Z.of_nat (nc + 5))%Z →
  is_ok (attempt_step anchors nc a (m, v)).
Proof.
  intros Hsh Hi Hl. unfold attempt_step, list_get. simpl.
  destruct (lookup_lt_is_Some_2 anchors (idx a.2) Hi) as [anchor ->]. simpl.
  unfold process_overlap.
  destruct (match m !! idx a.2 with Some s => _ | None => _ end); [done|].
  destruct Hsh as [Hlen Hrows].
  destruct (lookup_lt_is_Some_2 v (idx a.2)) as [row Hrow]; [lia|].
  rewrite Hrow.
  rewrite write_row_shape
    by (by eapply (Forall_lookup_1 _ _ _ _ Hrows)).
  by destruct (py_index_is_Some _ _ Hl) as [k ->].
Qed.

Lemma run_attempts_total anchors nc l st :
  vec_shape (length anchors) (nc + 5) st.2 →
  Forall (fun a => (idx a.2 < length anchors)%nat ∧
            (- Z.of_nat (nc + 5) ≤ labelid a.1 < Z.of_nat (nc + 5))%Z) l →
  is_ok (run_attempts anchors nc l st).
Proof.
  unfold run_attempts. revert st.
  induction l as [|a l IH]; intros [m v] Hsh Hall; simpl; [done|].
  inversion_clear Hall as [|? ? [Hi Hl] Hall'].
  pose proof (attempt_step_total anchors nc a m v Hsh Hi Hl) as Hok.
  destruct (attempt_step anchors nc a (m, v)) as [st1|e] eqn:Hstep; [|done].
  simpl. apply IH; [|done].
  by apply (attempt_step_shape anchors nc a _ (m, v)).
Qed.

(** A sample whose labels are indices of a row and whose overlaps name
    anchors of the list is encoded without exception. *)
Lemma encode_sample_total anchors arr nc sample :
  labels_indexable nc (boxes sample) →
  overlaps_ok (length anchors) arr (boxes sample) →
  is_ok (encode_sample anchors arr nc sample).
Proof.
  intros Hl Ho. rewrite encode_sample_attempts.
  assert (∀ b, b ∈ boxes sample →
            (- Z.of_nat (nc + 5) ≤ labelid b < Z.of_nat (nc + 5))%Z) as Hl'
    by by apply list.Forall_forall.
  pose proof (proj1 (list.Forall_forall _ _) Ho) as Ho'.
  pose proof (run_attempts_total anchors nc
                (good_attempts arr (boxes sample))
                (∅, init_vec (length anchors) nc)) as H1.
  destruct (run_attempts _ _ (good_attempts _ _) _) as [st1|e] eqn:Hrun1.
  - simpl.
    pose proof (run_attempts_total anchors nc
                  (best_attempts arr (boxes sample)) (∅, st1.2)) as H2.
    destruct (run_attempts _ _ (best_attempts _ _) _) as [st2|e] eqn:Hrun2;
      [done|].
    apply H2.
    + apply (run_attempts_shape _ _ _ (length anchors)) in Hrun1;
        [done|apply init_vec_shape].
    + apply list.Forall_forall. intros a Ha. split.
      * rewrite (best_attempts_score _ _ _ Ha).
        by destruct (Ho' a.1 (best_attempts_box _ _ _ Ha)) as [Hb _].
      * exact (Hl' a.1 (best_attempts_box _ _ _ Ha)).
  - apply H1; [apply init_vec_shape|].
    apply list.Forall_forall. intros a Ha. split.
    + destruct (Ho' a.1 (good_attempts_box _ _ _ Ha)) as [_ Hg].
      apply (proj1 (list.Forall_forall _ _) Hg).
      exact (good_attempts_score _ _ _ Ha).
    + exact (Hl' a.1 (good_attempts_box _ _ _ Ha)).
Qed.

End Totality.

(** ** The exit code of [main] *)

Lemma for_each_total {A S} (xs : list A) (body : A -> S -> result S) st :
  (∀ x st, x ∈ xs → is_ok (body x st)) → is_ok (for_each xs body st).
Proof.
  revert st. induction xs as [|x xs IH]; intros st Hok; simpl; [done|].
  pose proof (Hok x st (list_elem_of_here _ _)) as Hx.
  destruct (body x st) as [st'|e]; [simpl|done].
  apply IH. intros y st'' Hy. apply Hok. by right.
Qed.

Lemma is_ok_inv {A} (r : result A) : is_ok r → ∃ a, r = Ok a.
Proof. destruct r as [a|e]; [by exists a|done]. Qed.

Section MainFacts.
Context `{SsdUtils} `{DataSource}.

Lemma annotate_total data_dir samples colors sample_name wd :
  annotatable colors samples →
  ∃ wd', annotate data_dir samples colors sample_name wd = Ok wd'.
Proof.
  intros Hc. apply is_ok_inv. unfold annotate. apply for_each_total.
  intros s st Hs.
  pose proof (proj1 (list.Forall_forall _ _) Hc s Hs) as Hboxes.
  assert (is_ok (for_each (boxes s) (fun box img =>
            match colors !! label box with
            | Some c => Ok (mk_Img (img_src img) (drawn img ++ [(box, c)]))
            | None => Raise key_error
            end) (mk_Img (filename s) []))) as Hdraw.
  { apply for_each_total. intros b img Hb.
    by destruct (proj1 (list.Forall_forall _ _) Hboxes b Hb) as [c ->]. }
  apply is_ok_inv in Hdraw as [img Himg]. by rewrite Himg.
Qed.

(** C7, as amended.  [main] returns 1, after reporting the failure and
    without touching a file or a directory, when the loading of the data
    source raises ImportError, AttributeError, RuntimeError or one of their
    subclasses; any other exception raised by the loading leaves [main]
    uncaught.  When the data source is loaded, [main] returns no other
    value than 0, and it does return 0 when the annotation finds a colour
    for every label and the ground truth can encode every sample. *)
Theorem main_exit_code (args : Args) (wd : World) :
  match load_source args with
  | Raise e =>
      if caught e then
        ∃ wd',
          main args wd = Ok (wd', 1%Z) ∧
          trace wd' = trace (banner args wd) ++
                      [Print [VStr "[!] Unable to load data source:";
                              VStr (exn_msg e)]] ∧
          files wd' = files wd ∧ dirs wd' = dirs wd
      else main args wd = Raise e
  | Ok source =>
      (∀ wd' code, main args wd = Ok (wd', code) → code = 0%Z) ∧
      ((args_annotate args = true →
        annotatable (colors source) (train_samples source) ∧
        annotatable (colors source) (valid_samples source) ∧
        annotatable (colors source) (test_samples source)) →
       (args_compute_gt args = true →
        encodable (get_anchors_for_preset
                     (get_preset_by_name (args_preset args)))
                  (num_classes source) (train_samples source) ∧
        encodable (get_anchors_for_preset
                     (get_preset_by_name (args_preset args)))
                  (num_classes source) (valid_samples source)) →
       ∃ wd', main args wd = Ok (wd', 0%Z))
  end.
Proof.
  unfold main.
  destruct (load_source args) as [source|e].
  - split.
    + intros wd' code.
      destruct (if args_annotate args then _ else _) as [wd1|e1];
        simpl; [|done].
      destruct (if args_compute_gt args then _ else _) as [wd2|e2];
        simpl; [|done].
      by intros [= _ <-].
    + intros Hann Hgt. cbv zeta.
      assert (∀ wd0, ∃ wd1,
                (if args_annotate args then
                   wd ← annotate (args_data_dir args) (train_samples source)
                          (colors source) "train"
                          (print [VStr "[i] Annotating samples..."] wd0);
                   wd ← annotate (args_data_dir args) (valid_samples source)
                          (colors source) "valid" wd;
                   annotate (args_data_dir args) (test_samples source)
                     (colors source) "test " wd
                 else Ok wd0) = Ok wd1) as Hphase1.
      { intros wd0. destruct (args_annotate args); [|by eexists].
        destruct (Hann eq_refl) as (Htrain & Hvalid & Htest). simpl.
        destruct (annotate_total (args_data_dir args) _ _ "train"
                    (print [VStr "[i] Annotating samples..."] wd0) Htrain)
          as [wd1 ->]. simpl.
        destruct (annotate_total (args_data_dir args) _ _ "valid" wd1 Hvalid)
          as [wd2 ->]. simpl.
        apply annotate_total, Htest. }
      destruct (Hphase1 (print [VStr "[i] # classes:            ";
                                VInt (Z.of_nat (num_classes source))]
                  (print [VStr "[i] # testing samples:    ";
                          VInt (Z.of_nat (num_test source))]
                  (print [VStr "[i] # validation samples: ";
                          VInt (Z.of_nat (num_valid source))]
                  (print [VStr "[i] # training samples:   ";
                          VInt (Z.of_nat (num_train source))]
                     (banner args wd)))))) as [wd1 ->].
      simpl.
      destruct (args_compute_gt args); [|by eexists].
      destruct (Hgt eq_refl) as (Htrain & Hvalid).
      destruct (compute_gt_total (args_data_dir args) _ _ _ "train"
                  (print [VStr "[i] Computing the ground truth..."] wd1)
                  Htrain) as [wd2 ->]. simpl.
      destruct (compute_gt_total (args_data_dir args) _ _ _ "valid" wd2
                  Hvalid) as [wd3 ->]. simpl.
      by eexists.
  - destruct (caught e); [|done]. eexists. by split.
Qed.

End MainFacts.

(** ** The properties on the reference instance *)

Section ReferenceRuns.
Import Reference.
Local Existing Instance utils.
Local Existing Instance source.

Ltac by_computation := apply (bool_decide_unpack _); vm_compute; exact I.



Lemma one_hot_at_all_times_witness :
  labels_ok classes (boxes overwritten) ∧
  Forall (one_hot_vec classes) (encode_states grid grid_arr classes overwritten) ∧
  one_hot_vec classes (vec_of (encode overwritten)).
Proof.
  assert (labels_ok classes (boxes overwritten)) as Hl by by_computation.
  destruct (one_hot_at_all_times grid grid_arr classes overwritten Hl)
    as (_ & Hstates & Hend & _).
  split; [exact Hl|]. split; [exact Hstates|].
  apply (Hend (vec_of (encode overwritten))). vm_compute. reflexivity.
Defined.

Lemma untouched_rows_stay_background_witness :
  encode two_good = Ok (vec_of (encode two_good)) ∧
  untouched (good_attempts grid_arr (boxes two_good)) 3 ∧
  untouched (best_attempts grid_arr (boxes two_good)) 3 ∧
  vec_of (encode two_good) !! 3%nat = Some (background_row classes).
Proof.
  assert (encode two_good = Ok (vec_of (encode two_good))) as Henc
    by (vm_compute; reflexivity).
  assert (untouched (good_attempts grid_arr (boxes two_good)) 3) as Hg
    by by_computation.
  assert (untouched (best_attempts grid_arr (boxes two_good)) 3) as Hb
    by by_computation.
  split; [exact Henc|]. split; [exact Hg|]. split; [exact Hb|].
  apply (untouched_rows_stay_background grid grid_arr classes two_good
           (vec_of (encode two_good)) 3 Henc); [by_computation|exact Hg|exact Hb].
Defined.

Lemma best_anchor_of_winner_carries_class_witness :
  encode crowded = Ok (vec_of (encode crowded)) ∧
  wins (best_attempts grid_arr (boxes crowded)) 1 (small_dog, best_of small_dog) ∧
  ∃ row, vec_of (encode crowded) !! idx (best_of small_dog) = Some row ∧
         has_class small_dog row = true.
Proof.
  assert (encode crowded = Ok (vec_of (encode crowded))) as Henc
    by (vm_compute; reflexivity).
  assert (wins (best_attempts grid_arr (boxes crowded)) 1
               (small_dog, best_of small_dog)) as Hw by by_computation.
  split; [exact Henc|]. split; [exact Hw|].
  apply (best_anchor_of_winner_carries_class grid grid_arr classes crowded
           (vec_of (encode crowded)) 1 small_dog Henc); [by_computation|exact Hw].
Defined.

(** C4, as stated, fails.  In the sample [tied] the boxes [tiny_cat] and
    [tiny_dog] overlap no anchor at the threshold and have the same best
    anchor with the same score; [tiny_cat] comes first and keeps the row, no
    box has a greater score, and no row of the encoded array carries the
    class of [tiny_dog].  In the sample [crowded] the later box [small_dog]
    has the greater score and takes the row from [tiny_cat], which is left
    without a row. *)
Lemma some_box_is_left_without_anchor :
  (tiny_dog ∈ boxes tied ∧
   labels_ok classes (boxes tied) ∧
   good (overlap_of grid_arr tiny_dog) = [] ∧
   best_of tiny_cat = best_of tiny_dog ∧
   ∃ v, encode_sample grid (anchors2array grid img_size) classes tied = Ok v ∧
        Forall (fun row => has_class tiny_dog row = false) v) ∧
  (tiny_cat ∈ boxes crowded ∧
   labels_ok classes (boxes crowded) ∧
   good (overlap_of grid_arr tiny_cat) = [] ∧
   ∃ v, encode_sample grid (anchors2array grid img_size) classes crowded
        = Ok v ∧
        Forall (fun row => has_class tiny_cat row = false) v).
Proof.
  split.
  - split; [by_computation|]. split; [by_computation|].
    split; [vm_compute; reflexivity|]. split; [by_computation|].
    exists (vec_of (encode tied)). split; [vm_compute; reflexivity|].
    by_computation.
  - split; [by_computation|]. split; [by_computation|].
    split; [vm_compute; reflexivity|].
    exists (vec_of (encode crowded)). split; [vm_compute; reflexivity|].
    by_computation.
Qed.

Lemma one_vector_and_one_entry_per_sample_witness :
  Forall (fun s => is_ok (encode_sample grid (anchors2array grid img_size)
                            classes s)) [two_good; overwritten] ∧
  ∃ wd',
    compute_gt "pascal-voc" [two_good; overwritten] grid classes "train"
      empty_world = Ok wd' ∧
    files wd' !! "pascal-voc/train-samples.pkl"
      = Some (SamplesPkl
                [(two_good, "pascal-voc/ground_truth/train/000001.jpg.npy");
                 (overwritten,
                  "pascal-voc/ground_truth/train/000002.jpg.npy")]) ∧
    is_Some (files wd' !! "pascal-voc/ground_truth/train/000001.jpg.npy") ∧
    is_Some (files wd' !! "pascal-voc/ground_truth/train/000002.jpg.npy").
Proof.
  assert (Forall (fun s => is_ok (encode_sample grid
                                    (anchors2array grid img_size) classes s))
                 [two_good; overwritten]) as Hok.
  { repeat (constructor; [vm_compute; exact I|]). constructor. }
  split; [exact Hok|].
  destruct (one_vector_and_one_entry_per_sample "pascal-voc"
              [two_good; overwritten] grid classes "train" empty_world Hok)
    as (vecs & wd' & Hgt & _ & _ & Hpkl & _ & _ & Hfiles & _).
  exists wd'. split; [exact Hgt|]. split; [exact Hpkl|].
  destruct (Hfiles 0%nat two_good eq_refl) as (_ & _ & _ & _ & v0 & Hv0).
  destruct (Hfiles 1%nat overwritten eq_refl) as (_ & _ & _ & _ & v1 & Hv1).
  split; [exists (NpyFile v0); exact Hv0|exists (NpyFile v1); exact Hv1].
Defined.

Lemma fixed_reference_canvas_witness :
  compute_gt "pascal-voc" [two_good; two_good_copy] grid classes "train"
    empty_world
  = Ok (Cases.world_of
          (compute_gt "pascal-voc" [two_good; two_good_copy] grid classes
             "train" empty_world)) ∧
  boxes two_good = boxes two_good_copy ∧
  imgsize two_good ≠ imgsize two_good_copy ∧
  ∃ v,
    canvas_encoding (mk_Size 1000 1000) grid classes (boxes two_good) = Ok v ∧
    canvas_encoding (mk_Size 1000 1000) grid classes (boxes two_good_copy)
      = Ok v ∧
    NpSave (gt_path "pascal-voc" "train" two_good) v
      ∈ trace (Cases.world_of
                 (compute_gt "pascal-voc" [two_good; two_good_copy] grid
                    classes "train" empty_world)) ∧
    NpSave (gt_path "pascal-voc" "train" two_good_copy) v
      ∈ trace (Cases.world_of
                 (compute_gt "pascal-voc" [two_good; two_good_copy] grid
                    classes "train" empty_world)).
Proof.
  assert (compute_gt "pascal-voc" [two_good; two_good_copy] grid classes
            "train" empty_world
          = Ok (Cases.world_of
                  (compute_gt "pascal-voc" [two_good; two_good_copy] grid
                     classes "train" empty_world))) as Hgt
    by (vm_compute; reflexivity).
  split; [exact Hgt|]. split; [reflexivity|]. split; [discriminate|].
  destruct (fixed_reference_canvas _ _ _ _ _ _ _ Hgt)
    as (vecs & Htrace & Hcanvas & Hsame).
  pose proof Hcanvas as Hlen. apply Forall2_length in Hlen.
  destruct vecs as [|v1 [|v2 [|]]]; try discriminate Hlen.
  assert (v1 = v2) as <-.
  { apply (Hsame 0%nat 1%nat two_good two_good_copy v1 v2); reflexivity. }
  exists v1.
  apply Forall2_cons_1 in Hcanvas as [Hc1 Hcanvas].
  apply Forall2_cons_1 in Hcanvas as [Hc2 _].
  split; [exact Hc1|]. split; [exact Hc2|].
  rewrite Htrace. split.
  - apply elem_of_app. right. apply elem_of_app. left. simpl. left.
  - apply elem_of_app. right. apply elem_of_app. left. simpl. right. left.
Defined.

Lemma empty_sample_is_saved_witness :
  Forall (fun s => is_ok (encode_sample grid (anchors2array grid img_size)
                            classes s)) [two_good; no_boxes] ∧
  boxes no_boxes = [] ∧
  ∃ wd',
    compute_gt "pascal-voc" [two_good; no_boxes] grid classes "train"
      empty_world = Ok wd' ∧
    NpSave "pascal-voc/ground_truth/train/000004.jpg.npy"
           (replicate 5 (background_row classes)) ∈ trace wd' ∧
    ∃ l, files wd' !! "pascal-voc/train-samples.pkl" = Some (SamplesPkl l) ∧
         (no_boxes, "pascal-voc/ground_truth/train/000004.jpg.npy") ∈ l.
Proof.
  assert (Forall (fun s => is_ok (encode_sample grid
                                    (anchors2array grid img_size) classes s))
                 [two_good; no_boxes]) as Hok.
  { repeat (constructor; [vm_compute; exact I|]). constructor. }
  assert (no_boxes ∈ [two_good; no_boxes]) as Hin by by_computation.
  split; [exact Hok|]. split; [reflexivity|].
  destruct (empty_sample_is_saved "pascal-voc" [two_good; no_boxes] grid
              classes "train" empty_world no_boxes Hok Hin eq_refl)
    as (_ & _ & wd' & Hgt & Hsave & l & Hl & Hentry).
  exists wd'. split; [exact Hgt|]. split; [exact Hsave|].
  exists l. split; [exact Hl|exact Hentry].
Defined.

Lemma equal_basenames_share_a_path_witness :
  Forall (fun s => is_ok (encode_sample grid (anchors2array grid img_size)
                            classes s)) [two_good; overwritten; namesake] ∧
  basename (filename two_good) = basename (filename namesake) ∧
  encode two_good ≠ encode namesake ∧
  ∃ (wd' : World) (v2 : Vec) (l : list (Sample * string)),
    compute_gt "pascal-voc" [two_good; overwritten; namesake] grid classes
      "train" empty_world = Ok wd' ∧
    encode namesake = Ok v2 ∧
    files wd' !! "pascal-voc/ground_truth/train/000001.jpg.npy"
      = Some (NpyFile v2) ∧
    l !! 0%nat
      = Some (two_good, "pascal-voc/ground_truth/train/000001.jpg.npy") ∧
    l !! 2%nat
      = Some (namesake, "pascal-voc/ground_truth/train/000001.jpg.npy").
Proof.
  assert (Forall (fun s => is_ok (encode_sample grid
                                    (anchors2array grid img_size) classes s))
                 [two_good; overwritten; namesake]) as Hok.
  { repeat (constructor; [vm_compute; exact I|]). constructor. }
  split; [exact Hok|]. split; [reflexivity|].
  split; [by vm_compute|].
  destruct (equal_basenames_share_a_path "pascal-voc"
              [two_good; overwritten; namesake] grid classes "train"
              empty_world 2 namesake Hok eq_refl)
    as (wd' & v2 & l & Hgt & Henc & Hfile & _ & Hj & Hsame & _).
  { intros [|[|[|k]]] s Hk Hs; try lia. discriminate. }
  exists wd', v2, l. split; [exact Hgt|]. split; [exact Henc|].
  split; [exact Hfile|]. split; [|exact Hj].
  exact (proj2 (Hsame 0%nat two_good eq_refl eq_refl)).
Defined.

(** C7, as stated, fails: the loader of the reference data source cannot
    list the directory and raises OSError, which [main] does not catch; the
    loading has failed and [main] does not return 1. *)
Lemma uncaught_loading_failure :
  load_source (H0 := source) (args_for "pascal_voc" "/mnt/voc")
    = Raise (mk_exn OSError "Permission denied: /mnt/voc") ∧
  run_main (args_for "pascal_voc" "/mnt/voc")
    = Raise (mk_exn OSError "Permission denied: /mnt/voc") ∧
  ∀ wd', run_main (args_for "pascal_voc" "/mnt/voc") ≠ Ok (wd', 1%Z).
Proof.
  split; [reflexivity|]. split; [reflexivity|]. intros wd'. discriminate.
Qed.

(** The exit codes of three runs: a missing module, a malformed data set,
    and a data source that loads. *)
Lemma main_exit_code_witness :
  (∃ wd', run_main (args_for "coco" "pascal-voc") = Ok (wd', 1%Z) ∧
          files wd' = ∅) ∧
  (∃ wd', run_main (args_for "pascal_voc" "") = Ok (wd', 1%Z) ∧
          files wd' = ∅) ∧
  (∃ wd', run_main (args_for "pascal_voc" "pascal-voc") = Ok (wd', 0%Z)).
Proof.
  split; [|split].
  - destruct (main_exit_code (H := utils) (H0 := source)
                (args_for "coco" "pascal-voc") empty_world)
      as (wd' & Hmain & _ & Hfiles & _).
    exists wd'. split; [exact Hmain|exact Hfiles].
  - destruct (main_exit_code (H := utils) (H0 := source)
                (args_for "pascal_voc" "") empty_world)
      as (wd' & Hmain & _ & Hfiles & _).
    exists wd'. split; [exact Hmain|exact Hfiles].
  - destruct (main_exit_code (H := utils) (H0 := source)
                (args_for "pascal_voc" "pascal-voc") empty_world)
      as [_ Hzero].
    apply Hzero.
    + intros _. repeat split; by_computation.
    + intros _. split;
        repeat (constructor; [vm_compute; exact I|]); constructor.
Defined.

End ReferenceRuns.

(** C1.  The two passes use independent tables.  The second pass starts
    from an empty table, so the best attempt of a box is resolved against
    the best attempts of the other boxes only: the attempt that wins its
    anchor among the best attempts owns the row in the encoded array,
    whatever the first pass recorded for that anchor.  And there is a sample
    in which a best attempt overwrites the row a good attempt took in the
    first pass with a strictly greater score. *)
Theorem passes_use_independent_tables :
  (∀ (U : SsdUtils) (anchors : list Anchor) (arr : list (list Qc))
     (nc : nat) (sample : Sample) (v : Vec) (p : nat) (a : Attempt),
     encode_sample anchors arr nc sample = Ok v →
     wins (best_attempts arr (boxes sample)) p a →
     ∃ m1 v1 m2,
       good_pass anchors nc (compute_overlaps arr (boxes sample))
         (boxes sample) (∅, init_vec (length anchors) nc) = Ok (m1, v1) ∧
       best_pass anchors nc (compute_overlaps arr (boxes sample))
         (boxes sample) (∅, v1) = Ok (m2, v) ∧
       m2 !! idx a.2 = Some (score a.2) ∧
       ∃ anchor r, anchors !! idx a.2 = Some anchor ∧
                   encoded_row nc a.1 anchor = Ok r ∧
                   v !! idx a.2 = Some r) ∧
  (∃ (U : SsdUtils) (anchors : list Anchor) (nc : nat) (sample : Sample)
     (m1 : gmap nat Qc) (v1 v : Vec) (box : Box) (S : Qc)
     (row1 row : list Qc),
     good_pass anchors nc
       (compute_overlaps (anchors2array anchors img_size) (boxes sample))
       (boxes sample) (∅, init_vec (length anchors) nc) = Ok (m1, v1) ∧
     encode_sample anchors (anchors2array anchors img_size) nc sample
       = Ok v ∧
     box ∈ boxes sample ∧
     m1 !! idx (best (overlap_of (anchors2array anchors img_size) box))
       = Some S ∧
     (score (best (overlap_of (anchors2array anchors img_size) box)) < S)%Qc ∧
     v1 !! idx (best (overlap_of (anchors2array anchors img_size) box))
       = Some row1 ∧
     has_class box row1 = false ∧
     v !! idx (best (overlap_of (anchors2array anchors img_size) box))
       = Some row ∧
     has_class box row = true).
Proof.
  split.
  - intros U anchors arr nc sample v p a. apply encode_sample_best_winner.
  - exists Reference.utils, Reference.grid, Reference.classes,
      Reference.overwritten.
    exists (Reference.after_good Reference.overwritten).1,
      (Reference.after_good Reference.overwritten).2,
      (Reference.vec_of (Reference.encode Reference.overwritten)),
      Reference.slim_dog.
    exists (default 0%Qc
              ((Reference.after_good Reference.overwritten).1 !! 0%nat)),
      (default [] ((Reference.after_good Reference.overwritten).2 !! 0%nat)),
      (default [] (Reference.vec_of
                     (Reference.encode Reference.overwritten) !! 0%nat)).
    split; [vm_compute; reflexivity|].
    split; [vm_compute; reflexivity|].
    split; [apply (bool_decide_unpack _); vm_compute; exact I|].
    split; [vm_compute; reflexivity|].
    split; [vm_compute; reflexivity|].
    split; [vm_compute; reflexivity|].
    split; [vm_compute; reflexivity|].
    split; vm_compute; reflexivity.
Qed.

Lemma passes_use_independent_tables_witness :
  wins (best_attempts (H := Reference.utils) Reference.grid_arr
          (boxes Reference.overwritten)) 1
       (Reference.slim_dog, Reference.best_of Reference.slim_dog) ∧
  (Reference.after_good Reference.overwritten).1 !! 0%nat
    = Some (Reference.q 9 11) ∧
  score (Reference.best_of Reference.slim_dog) = Reference.q 2 5 ∧
  ∃ anchor r,
    Reference.grid !! 0%nat = Some anchor ∧
    encoded_row (H := Reference.utils) Reference.classes Reference.slim_dog
      anchor = Ok r ∧
    Reference.vec_of (Reference.encode Reference.overwritten) !! 0%nat
      = Some r.
Proof.
  assert (wins (best_attempts (H := Reference.utils) Reference.grid_arr
                  (boxes Reference.overwritten)) 1
               (Reference.slim_dog, Reference.best_of Reference.slim_dog))
    as Hw by (apply (bool_decide_unpack _); vm_compute; exact I).
  split; [exact Hw|].
  split; [apply (bool_decide_unpack _); vm_compute; exact I|].
  split; [apply (bool_decide_unpack _); vm_compute; exact I|].
  destruct (proj1 passes_use_independent_tables Reference.utils
              Reference.grid Reference.grid_arr Reference.classes
              Reference.overwritten
              (Reference.vec_of (Reference.encode Reference.overwritten))
              1 (Reference.slim_dog, Reference.best_of Reference.slim_dog))
    as (m1 & v1 & m2 & _ & _ & _ & anchor & r & Ha & Hr & Hv);
    [vm_compute; reflexivity|exact Hw|].
  exists anchor, r. split; [exact Ha|]. split; [exact Hr|exact Hv].
Defined.

(** * Further properties *)

(** ** The encoded array *)

Section MoreEncodingFacts.
Context `{SsdUtils}.
Implicit Types (m : gmap nat Qc) (v : Vec) (a : Attempt) (o : Score).

Lemma good_attempts_elem arr bs box o :
  box ∈ bs → o ∈ good (overlap_of arr box) → (box, o) ∈ good_attempts arr bs.
Proof.
  intros Hb Ho. unfold good_attempts. apply list_elem_of_In, in_flat_map.
  exists box. split; [by apply list_elem_of_In|].
  apply in_map. by apply list_elem_of_In.
Qed.

Lemma best_attempts_elem arr bs box :
  box ∈ bs → (box, best (overlap_of arr box)) ∈ best_attempts arr bs.
Proof.
  intros Hb. unfold best_attempts. apply list_elem_of_In.
  apply (in_map (fun b => (b, best (overlap_of arr b)))).
  by apply list_elem_of_In.
Qed.

(** Every attempt of a pass that returned names an anchor of the list. *)
Lemma run_attempts_idx anchors nc l st st' a :
  run_attempts anchors nc l st = Ok st' → a ∈ l →
  (idx a.2 < length anchors)%nat.
Proof.
  unfold run_attempts. revert st.
  induction l as [|a0 l IH]; intros st Hrun Ha; [by apply elem_of_nil in Ha|].
  simpl in Hrun.
  destruct (attempt_step anchors nc a0 st) as [st1|e] eqn:Hstep;
    [simpl in Hrun|done].
  apply elem_of_cons in Ha as [->|Ha]; [|by eapply IH].
  unfold attempt_step, list_get in Hstep.
  destruct (anchors !! idx a0.2) as [anchor|] eqn:Hanchor; [|done].
  by eapply lookup_lt_Some.
Qed.

(** A row after a pass is the row before the pass or the encoded row of
    the box of an attempt on that anchor. *)
Lemma run_attempts_rows anchors nc vh l m v m' v' i (row : list Qc) :
  vec_shape vh (nc + 5) v →
  run_attempts anchors nc l (m, v) = Ok (m', v') →
  v' !! i = Some row →
  v !! i = Some row ∨
  ∃ a anchor, a ∈ l ∧ idx a.2 = i ∧ anchors !! i = Some anchor ∧
              encoded_row nc a.1 anchor = Ok row.
Proof.
  unfold run_attempts. revert m v.
  induction l as [|a l IH]; intros m v Hsh Hrun Hrow; simpl in Hrun.
  - injection Hrun as <- <-. by left.
  - destruct (attempt_step anchors nc a (m, v)) as [[m1 v1]|e] eqn:Hstep;
      [simpl in Hrun|done].
    pose proof (attempt_step_shape anchors nc a vh _ _ Hstep Hsh) as Hsh1.
    destruct (IH m1 v1 Hsh1 Hrun Hrow) as [Hv1|(a' & anchor & Ha' & Hrest)];
      [|right; exists a', anchor; split; [by right|done]].
    destruct (attempt_step_cases_shape anchors nc a vh _ _ _ _ Hsh Hstep)
      as [(s & _ & _ & _ & ->)|(_ & _ & anchor & r & Ha & Hi & Hr & ->)];
      [by left|].
    destruct (decide (idx a.2 = i)) as [<-|Hne].
    + rewrite list_lookup_insert_eq in Hv1 by (destruct Hsh as [-> _]; done).
      injection Hv1 as ->. right. exists a, anchor.
      split; [left|done].
    + rewrite list_lookup_insert_ne in Hv1 by done. by left.
Qed.

(** The table of a pass never loses an entry or lowers a score, and at the
    end it holds for the anchor of every attempt a score that is not below
    the score of the attempt. *)
Lemma run_attempts_dominates anchors nc l m v m' v' :
  run_attempts anchors nc l (m, v) = Ok (m', v') →
  (∀ i s, m !! i = Some s → ∃ s', m' !! i = Some s' ∧ (s ≤ s')%Qc) ∧
  (∀ a, a ∈ l → ∃ s, m' !! idx a.2 = Some s ∧ (score a.2 ≤ s)%Qc).
Proof.
  unfold run_attempts. revert m v.
  induction l as [|a l IH]; intros m v Hrun; simpl in Hrun.
  - injection Hrun as <- <-. split.
    + intros i s Hs. exists s. split; [done|apply Qcle_refl].
    + by intros a ?%elem_of_nil.
  - destruct (attempt_step anchors nc a (m, v)) as [[m1 v1]|e] eqn:Hstep;
      [simpl in Hrun|done].
    destruct (IH m1 v1 Hrun) as [Hmono Hdom].
    assert (∀ i s, m !! i = Some s →
              ∃ s', m1 !! i = Some s' ∧ (s ≤ s')%Qc) as Hstep_mono.
    { intros i s Hs.
      apply attempt_step_cases in Hstep
        as [(s0 & _ & _ & -> & _)|(Hlt & -> & _)].
      - exists s. split; [done|apply Qcle_refl].
      - destruct (decide (idx a.2 = i)) as [<-|Hne].
        + exists (score a.2). split; [apply lookup_insert_eq|].
          by apply Qclt_le_weak, Hlt.
        + exists s. rewrite lookup_insert_ne by done.
          split; [done|apply Qcle_refl]. }
    assert (∃ s, m1 !! idx a.2 = Some s ∧ (score a.2 ≤ s)%Qc) as Hhead.
    { apply attempt_step_cases in Hstep
        as [(s0 & Hs0 & Hle & -> & _)|(_ & -> & _)].
      - by exists s0.
      - exists (score a.2). split; [apply lookup_insert_eq|apply Qcle_refl]. }
    split.
    + intros i s Hs. destruct (Hstep_mono i s Hs) as (s1 & Hs1 & Hle1).
      destruct (Hmono i s1 Hs1) as (s' & Hs' & Hle').
      exists s'. split; [done|]. by eapply Qcle_trans.
    + intros a' [->|Ha']%elem_of_cons; [|by apply Hdom].
      destruct Hhead as (s1 & Hs1 & Hle1).
      destruct (Hmono _ s1 Hs1) as (s' & Hs' & Hle').
      exists s'. split; [done|]. by eapply Qcle_trans.
Qed.

Lemma run_attempts_records anchors nc l v m' v' i :
  run_attempts anchors nc l (∅, v) = Ok (m', v') →
  records_maximum l i (m' !! i) ∧ (m' !! i = None → v' !! i = v !! i).
Proof.
  intros Hrun.
  destruct (run_attempts_dominates _ _ _ _ _ _ _ Hrun) as [_ Hdom].
  destruct (run_attempts_bound anchors nc l i ∅ v m' v' Hrun)
    as [Hsame|(a & Ha & Hi & Hsc)].
  - rewrite lookup_empty in Hsame. rewrite Hsame. simpl.
    assert (untouched l i) as Hun.
    { apply list.Forall_forall. intros a Ha Hi.
      destruct (Hdom a Ha) as (s & Hs & _). congruence. }
    split; [done|]. intros _.
    apply (run_attempts_keep anchors nc l i ∅ v m' v' Hrun).
    intros a Ha Hi. by destruct (proj1 (list.Forall_forall _ _) Hun a Ha).
  - rewrite Hsc. split; [|done]. split; [by exists a|].
    intros a' Ha' Hi'. destruct (Hdom a' Ha') as (s & Hs & Hle).
    rewrite Hi', Hsc in Hs. by injection Hs as <-.
Qed.

(** X1.  The encoded array has one row per anchor and [num_classes + 5]
    cells in every row. *)
Theorem encoded_array_shape
    (anchors : list Anchor) (arr : list (list Qc)) (nc : nat)
    (sample : Sample) (v : Vec) :
  encode_sample anchors arr nc sample = Ok v →
  length v = length anchors ∧
  ∀ i row, v !! i = Some row → length row = (nc + 5)%nat.
Proof.
  intros (m1 & v1 & m2 & Hg & Hb)%encode_sample_passes.
  rewrite good_pass_attempts in Hg. rewrite best_pass_attempts in Hb.
  apply (run_attempts_shape _ _ _ (length anchors)) in Hg;
    [|apply init_vec_shape].
  apply (run_attempts_shape _ _ _ (length anchors)) in Hb; [|done].
  destruct Hb as [Hlen Hrows]. split; [done|].
  intros i row Hrow. by eapply (Forall_lookup_1 _ _ _ _ Hrows).
Qed.

(** X2.  Every row of the encoded array is the background row or the
    encoded row of a box of the sample against the anchor of that very
    index, and the index is then in the good list of the box or is its best
    index. *)
Theorem rows_come_from_boxes
    (anchors : list Anchor) (arr : list (list Qc)) (nc : nat)
    (sample : Sample) (v : Vec) (i : nat) (row : list Qc) :
  encode_sample anchors arr nc sample = Ok v →
  v !! i = Some row →
  row = background_row nc ∨
  ∃ box o anchor,
    box ∈ boxes sample ∧
    (o ∈ good (overlap_of arr box) ∨ o = best (overlap_of arr box)) ∧
    idx o = i ∧ anchors !! i = Some anchor ∧
    encoded_row nc box anchor = Ok row.
Proof.
  intros (m1 & v1 & m2 & Hg & Hb)%encode_sample_passes Hrow.
  rewrite good_pass_attempts in Hg. rewrite best_pass_attempts in Hb.
  pose proof (run_attempts_shape _ _ _ (length anchors) _ _ Hg
                (init_vec_shape _ _)) as Hsh1.
  destruct (run_attempts_rows _ _ _ _ _ _ _ _ i row Hsh1 Hb Hrow)
    as [Hv1|(a & anchor & Ha & Hi & Hanchor & Henc)].
  - destruct (run_attempts_rows _ _ _ _ _ _ _ _ i row
                (init_vec_shape _ _) Hg Hv1)
      as [Hv0|(a & anchor & Ha & Hi & Hanchor & Henc)].
    + left. rewrite init_vec_replicate in Hv0.
      by apply lookup_replicate_1 in Hv0 as [-> _].
    + right. exists a.1, a.2, anchor.
      split; [by eapply good_attempts_box|].
      split; [left; exact (good_attempts_score _ _ _ Ha)|done].
  - right. exists a.1, a.2, anchor.
    split; [by eapply best_attempts_box|].
    split; [right; exact (best_attempts_score _ _ _ Ha)|done].
Qed.

(** X3.  After either pass the match table holds, for every anchor, the
    greatest score of the attempts of that pass on the anchor, and nothing
    for an anchor without attempt, whose row the pass leaves as it was. *)
Theorem table_records_maximum
    (anchors : list Anchor) (arr : list (list Qc)) (nc : nat)
    (bs : list Box) (v w0 : Vec) (m1 m2 : gmap nat Qc) (v1 v2 : Vec)
    (i : nat) :
  good_pass anchors nc (compute_overlaps arr bs) bs (∅, v) = Ok (m1, v1) →
  best_pass anchors nc (compute_overlaps arr bs) bs (∅, w0) = Ok (m2, v2) →
  records_maximum (good_attempts arr bs) i (m1 !! i) ∧
  (m1 !! i = None → v1 !! i = v !! i) ∧
  records_maximum (best_attempts arr bs) i (m2 !! i) ∧
  (m2 !! i = None → v2 !! i = w0 !! i).
Proof.
  rewrite good_pass_attempts, best_pass_attempts. intros Hg Hb.
  destruct (run_attempts_records _ _ _ _ _ _ i Hg) as [? ?].
  destruct (run_attempts_records _ _ _ _ _ _ i Hb) as [? ?].
  done.
Qed.

(** X4.  The row the first pass gave to an anchor that is the best anchor
    of no box is the row of the encoded array. *)
Theorem good_rows_survive
    (anchors : list Anchor) (arr : list (list Qc)) (nc : nat)
    (sample : Sample) (v : Vec) (m1 : gmap nat Qc) (v1 : Vec) (i : nat) :
  encode_sample anchors arr nc sample = Ok v →
  good_pass anchors nc (compute_overlaps arr (boxes sample)) (boxes sample)
    (∅, init_vec (length anchors) nc) = Ok (m1, v1) →
  untouched (best_attempts arr (boxes sample)) i →
  v !! i = v1 !! i.
Proof.
  intros (m1' & v1' & m2 & Hg & Hb)%encode_sample_passes Hg' Hun.
  rewrite Hg in Hg'. injection Hg' as <- <-.
  rewrite best_pass_attempts in Hb.
  destruct (run_attempts_keep _ _ _ i _ _ _ _ Hb) as [_ Hv]; [|done].
  intros a Ha Hi. by destruct (proj1 (list.Forall_forall _ _) Hun a Ha).
Qed.

End MoreEncodingFacts.

Section LabelAndIndexFacts.
Context `{SsdUtils}.
Implicit Types (m : gmap nat Qc) (v : Vec) (a : Attempt) (o : Score).

(** X5.  What the three assignments of [process_overlap] leave in a row of
    width [num_classes + 5] for a label outside the one-hot segment: a label
    that names one of the four offset cells, from the front or from the
    end, leaves a row without any class, because the offsets are written
    after the 1; a more negative label counts from the end into the one-hot
    segment; and a label outside the row raises IndexError. *)
Theorem label_outside_one_hot
    (box : Box) (anchor : Anchor) (nc : nat) (row : list Qc) :
  length row = (nc + 5)%nat →
  ((Z.of_nat nc < labelid box < Z.of_nat nc + 5 ∨ -5 < labelid box < 0)%Z →
   write_row box anchor nc row
   = Ok (replicate (nc + 1) 0%Qc ++ loc_cells (compute_location box anchor)))
  ∧
  ((- Z.of_nat nc - 5 ≤ labelid box ≤ -5)%Z →
   write_row box anchor nc row
   = Ok (class_row nc (Z.to_nat (Z.of_nat nc + 5 + labelid box))
           (compute_location box anchor)))
  ∧
  ((labelid box < - Z.of_nat nc - 5 ∨ Z.of_nat nc + 5 ≤ labelid box)%Z →
   write_row box anchor nc row = Raise index_error).
Proof.
  intros Hlen. rewrite (write_row_shape _ _ _ _ Hlen). unfold py_index.
  split; [|split]; intros Hl.
  - destruct Hl as [Hl|Hl].
    + rewrite bool_decide_eq_true_2 by lia.
      by rewrite bool_decide_eq_false_2 by lia.
    + rewrite bool_decide_eq_false_2 by lia.
      rewrite bool_decide_eq_true_2 by lia.
      by rewrite bool_decide_eq_false_2 by lia.
  - rewrite bool_decide_eq_false_2 by lia.
    rewrite bool_decide_eq_true_2 by lia.
    rewrite bool_decide_eq_true_2 by lia.
    unfold class_row. do 3 f_equal. lia.
  - rewrite bool_decide_eq_false_2 by lia.
    by rewrite bool_decide_eq_false_2 by lia.
Qed.

(** X6.  [anchors[overlap.idx]] is read for every attempt, before the
    conflict check: when the labels are indices of a row, the encoding
    returns exactly when every good index and every best index is an index
    of the anchor list. *)
Theorem encoding_returns_iff_indices_in_range
    (anchors : list Anchor) (arr : list (list Qc)) (nc : nat)
    (sample : Sample) :
  labels_indexable nc (boxes sample) →
  is_ok (encode_sample anchors arr nc sample) ↔
  overlaps_ok (length anchors) arr (boxes sample).
Proof.
  intros Hl. split; [|by apply encode_sample_total].
  intros Hok.
  destruct (encode_sample anchors arr nc sample) as [v|e] eqn:Henc; [|done].
  apply encode_sample_passes in Henc as (m1 & v1 & m2 & Hg & Hb).
  rewrite good_pass_attempts in Hg. rewrite best_pass_attempts in Hb.
  apply list.Forall_forall. intros b Hbox. split.
  - apply (run_attempts_idx _ _ _ _ _ (b, best (overlap_of arr b)) Hb).
    by apply best_attempts_elem.
  - apply list.Forall_forall. intros o Ho.
    apply (run_attempts_idx _ _ _ _ _ (b, o) Hg).
    by apply good_attempts_elem.
Qed.

(** Attempts that a pass has already made change nothing when they are
    made again. *)
Lemma run_attempts_again anchors nc l l' st st' :
  run_attempts anchors nc l st = Ok st' →
  (∀ a, a ∈ l' → a ∈ l) →
  run_attempts anchors nc l' st' = Ok st'.
Proof.
  destruct st as [m v], st' as [m' v']. intros Hrun Hsub.
  destruct (run_attempts_dominates _ _ _ _ _ _ _ Hrun) as [_ Hdom].
  unfold run_attempts.
  induction l' as [|a l' IH]; [done|]. simpl.
  assert (a ∈ l) as Ha by (apply Hsub; left).
  assert (attempt_step anchors nc a (m', v') = Ok (m', v')) as ->.
  { unfold attempt_step, list_get. simpl.
    pose proof (run_attempts_idx _ _ _ _ _ a Hrun Ha) as Hi.
    destruct (lookup_lt_is_Some_2 anchors (idx a.2) Hi) as [anchor ->].
    simpl. destruct (Hdom a Ha) as (s & Hs & Hle).
    by rewrite (process_overlap_skip _ _ _ _ _ _ s Hs Hle). }
  simpl. apply IH. intros a' Ha'. apply Hsub. by right.
Qed.

Lemma good_attempts_app arr bs1 bs2 :
  good_attempts arr (bs1 ++ bs2)
  = good_attempts arr bs1 ++ good_attempts arr bs2.
Proof. unfold good_attempts. apply flat_map_app. Qed.

Lemma best_attempts_app arr bs1 bs2 :
  best_attempts arr (bs1 ++ bs2)
  = best_attempts arr bs1 ++ best_attempts arr bs2.
Proof. unfold best_attempts. apply map_app. Qed.

(** Attempts already made, made again in the middle of a pass, do not
    change its result. *)
Lemma run_attempts_insert_again anchors nc l1 l' l2 st :
  (∀ a, a ∈ l' → a ∈ l1) →
  run_attempts anchors nc (l1 ++ l' ++ l2) st
  = run_attempts anchors nc (l1 ++ l2) st.
Proof.
  intros Hsub. unfold run_attempts. rewrite !for_each_app.
  destruct (for_each l1 (attempt_step anchors nc) st) as [st1|e] eqn:Hrun1;
    simpl; [|done].
  rewrite for_each_app.
  pose proof (run_attempts_again anchors nc l1 l' st st1 Hrun1 Hsub) as Hagain.
  unfold run_attempts in Hagain. by rewrite Hagain.
Qed.

Lemma two_passes_ext anchors nc (g1 g2 b1 b2 : list Attempt) (st0 : EncState) :
  (∀ st, run_attempts anchors nc g1 st = run_attempts anchors nc g2 st) →
  (∀ st, run_attempts anchors nc b1 st = run_attempts anchors nc b2 st) →
  (st1 ← run_attempts anchors nc g1 st0;
   st2 ← run_attempts anchors nc b1 (∅, st1.2);
   Ok st2.2)
  = (st1 ← run_attempts anchors nc g2 st0;
     st2 ← run_attempts anchors nc b2 (∅, st1.2);
     Ok st2.2).
Proof.
  intros Hg Hb. rewrite Hg.
  destruct (run_attempts anchors nc g2 st0) as [st1|e]; simpl; [|done].
  by rewrite Hb.
Qed.

(** X7.  A box annotated twice counts once: a second copy of a box,
    anywhere after the first, changes neither the encoded array nor the
    exception. *)
Theorem repeated_box_changes_nothing
    (anchors : list Anchor) (arr : list (list Qc)) (nc : nat)
    (file : string) (sz : Size) (bs1 bs2 : list Box) (box : Box) :
  box ∈ bs1 →
  encode_sample anchors arr nc (mk_Sample file (bs1 ++ box :: bs2) sz)
  = encode_sample anchors arr nc (mk_Sample file (bs1 ++ bs2) sz).
Proof.
  intros Hbox. rewrite !encode_sample_attempts.
  change (boxes (mk_Sample file (bs1 ++ box :: bs2) sz))
    with (bs1 ++ [box] ++ bs2).
  change (boxes (mk_Sample file (bs1 ++ bs2) sz)) with (bs1 ++ bs2).
  rewrite !good_attempts_app, !best_attempts_app.
  apply two_passes_ext; intros st; apply run_attempts_insert_again.
  - intros a Ha. unfold good_attempts in Ha. simpl in Ha.
    rewrite app_nil_r in Ha. apply list_elem_of_In, in_map_iff in Ha
      as (o & <- & Ho).
    apply good_attempts_elem; [done|by apply list_elem_of_In].
  - intros a Ha. unfold best_attempts in Ha. simpl in Ha.
    apply list_elem_of_singleton in Ha as ->.
    by apply best_attempts_elem.
Qed.

End LabelAndIndexFacts.

Section OrderFacts.
Context `{SsdUtils}.
Implicit Types (m : gmap nat Qc) (v : Vec) (a : Attempt) (o : Score).

(** Without ties, the attempt of greatest score on an anchor wins it
    wherever it stands in the pass. *)
Lemma greatest_attempt_wins l p a :
  tie_free l → l !! p = Some a →
  (∀ a', a' ∈ l → idx a'.2 = idx a.2 → (score a'.2 ≤ score a.2)%Qc) →
  wins l p a.
Proof.
  intros Hfree Hp Hmax. split; [done|]. split.
  - apply Forall_lookup. intros q a' Hq Hi.
    apply lookup_take_Some in Hq as [Hq Hlt].
    destruct (Qcle_lt_or_eq _ _ (Hmax a' (list_elem_of_lookup_2 _ _ _ Hq) Hi))
      as [?|Heq]; [done|].
    assert (q = p) as ->; [|lia].
    apply (NoDup_lookup _ q p (attempt_key a) Hfree).
    + rewrite list_lookup_fmap, Hq. unfold attempt_key. simpl.
      by rewrite Hi, Heq.
    + by rewrite list_lookup_fmap, Hp.
  - apply list.Forall_forall. intros a' Ha' Hi. apply Hmax; [|done].
    apply list_elem_of_lookup in Ha' as [k Hk]. rewrite lookup_drop in Hk.
    by eapply list_elem_of_lookup_2.
Qed.

(** Two passes over the same attempts in different orders, from the empty
    table and the same array, end in the same table and the same array
    when no two attempts tie. *)
Lemma run_attempts_order anchors nc vh l1 l2 v m1 v1 m2 v2 :
  l1 ≡ₚ l2 → tie_free l1 → vec_shape vh (nc + 5) v →
  run_attempts anchors nc l1 (∅, v) = Ok (m1, v1) →
  run_attempts anchors nc l2 (∅, v) = Ok (m2, v2) →
  m1 = m2 ∧ v1 = v2.
Proof.
  intros Hperm Hfree1 Hsh Hrun1 Hrun2.
  assert (tie_free l2) as Hfree2.
  { unfold tie_free in *. by rewrite <-Hperm. }
  assert (∀ a, a ∈ l1 ↔ a ∈ l2) as Hmem.
  { intros a. by rewrite Hperm. }
  assert (∀ i, m1 !! i = m2 !! i) as Hm.
  { intros i.
    destruct (run_attempts_records _ _ _ _ _ _ i Hrun1) as [Hrec1 _].
    destruct (run_attempts_records _ _ _ _ _ _ i Hrun2) as [Hrec2 _].
    destruct (m1 !! i) as [s1|], (m2 !! i) as [s2|]; simpl in *; [| | |done].
    - destruct Hrec1 as [(a1 & Ha1 & Hi1 & Hs1) Hmax1].
      destruct Hrec2 as [(a2 & Ha2 & Hi2 & Hs2) Hmax2].
      f_equal. apply Qcle_antisym.
      + rewrite <-Hs1. apply Hmax2; [by apply Hmem|done].
      + rewrite <-Hs2. apply Hmax1; [by apply Hmem|done].
    - destruct Hrec1 as [(a1 & Ha1 & Hi1 & _) _].
      by destruct (proj1 (list.Forall_forall _ _) Hrec2 a1
                     (proj1 (Hmem a1) Ha1)).
    - destruct Hrec2 as [(a2 & Ha2 & Hi2 & _) _].
      by destruct (proj1 (list.Forall_forall _ _) Hrec1 a2
                     (proj2 (Hmem a2) Ha2)). }
  split; [by apply map_eq|].
  apply list_eq. intros i.
  destruct (run_attempts_records _ _ _ _ _ _ i Hrun1) as [Hrec1 Hnone1].
  destruct (run_attempts_records _ _ _ _ _ _ i Hrun2) as [_ Hnone2].
  destruct (m1 !! i) as [s|] eqn:Hs.
  - destruct Hrec1 as [(a & Ha & Hi & Hsc) Hmax]. subst i s.
    pose proof (proj1 (Hmem a) Ha) as Ha2.
    apply list_elem_of_lookup in Ha as [p1 Hp1].
    apply list_elem_of_lookup in Ha2 as [p2 Hp2].
    destruct (run_attempts_wins anchors nc vh l1 p1 a ∅ v m1 v1 Hsh Hrun1)
      as (_ & anchor1 & r1 & Hanchor1 & Hr1 & Hv1); [done| |].
    { by apply greatest_attempt_wins. }
    destruct (run_attempts_wins anchors nc vh l2 p2 a ∅ v m2 v2 Hsh Hrun2)
      as (_ & anchor2 & r2 & Hanchor2 & Hr2 & Hv2); [done| |].
    { apply greatest_attempt_wins; [done|done|].
      intros a' Ha'. apply Hmax. by apply Hmem. }
    congruence.
  - rewrite Hnone1 by done. rewrite Hnone2; [done|]. by rewrite <-Hm.
Qed.

(** X8.  The order of the boxes matters through ties only: two samples
    with the same boxes in different orders are encoded to the same array
    when no two attempts of a pass are on the same anchor with the same
    score. *)
Theorem box_order_matters_through_ties_only
    (anchors : list Anchor) (arr : list (list Qc)) (nc : nat)
    (s1 s2 : Sample) (v1 v2 : Vec) :
  boxes s1 ≡ₚ boxes s2 →
  tie_free (good_attempts arr (boxes s1)) →
  tie_free (best_attempts arr (boxes s1)) →
  encode_sample anchors arr nc s1 = Ok v1 →
  encode_sample anchors arr nc s2 = Ok v2 →
  v1 = v2.
Proof.
  intros Hperm Hfg Hfb.
  intros (m1 & w1 & n1 & Hg1 & Hb1)%encode_sample_passes.
  intros (m2 & w2 & n2 & Hg2 & Hb2)%encode_sample_passes.
  rewrite good_pass_attempts in Hg1, Hg2.
  rewrite best_pass_attempts in Hb1, Hb2.
  assert (good_attempts arr (boxes s1) ≡ₚ good_attempts arr (boxes s2))
    as Hpg by (unfold good_attempts; by apply Permutation_flat_map).
  assert (best_attempts arr (boxes s1) ≡ₚ best_attempts arr (boxes s2))
    as Hpb by (unfold best_attempts; by apply Permutation_map).
  destruct (run_attempts_order anchors nc (length anchors) _ _ _ _ _ _ _
              Hpg Hfg (init_vec_shape _ _) Hg1 Hg2) as [_ <-].
  pose proof (run_attempts_shape _ _ _ (length anchors) _ _ Hg1
                (init_vec_shape _ _)) as Hsh1.
  by destruct (run_attempts_order anchors nc (length anchors) _ _ _ _ _ _ _
                 Hpb Hfb Hsh1 Hb1 Hb2) as [_ <-].
Qed.

End OrderFacts.

(** ** The files of a split *)

(** The file a path holds after the saves is a vector saved there, the same
    whatever the world before, or the file the path held before. *)
Lemma save_all_files_cases data_dir name l path :
  (∃ v, ∀ wd, files (save_all data_dir name l wd) !! path = Some (NpyFile v))
  ∨ (Forall (fun sv => gt_path data_dir name sv.1 ≠ path) l ∧
     ∀ wd, files (save_all data_dir name l wd) !! path = files wd !! path).
Proof.
  induction l as [|sv l IH] using rev_ind.
  - right. split; [constructor|done].
  - destruct (decide (gt_path data_dir name sv.1 = path)) as [Heq|Hne].
    + left. exists sv.2. intros wd. rewrite save_all_snoc. simpl.
      rewrite Heq. apply lookup_insert_eq.
    + destruct IH as [[v Hv]|[Hall Hsame]].
      * left. exists v. intros wd. rewrite save_all_snoc. simpl.
        by rewrite lookup_insert_ne.
      * right. split.
        { apply Forall_app. split; [done|]. by constructor. }
        intros wd. rewrite save_all_snoc. simpl.
        by rewrite lookup_insert_ne.
Qed.

Lemma with_gt_dir_files data_dir name wd :
  files (with_gt_dir data_dir name wd) = files wd ∧
  dirs wd ⊆ dirs (with_gt_dir data_dir name wd) ∧
  dirs (with_gt_dir data_dir name wd) ⊆ {[gt_dir data_dir name]} ∪ dirs wd ∧
  path_exists (gt_dir data_dir name) (with_gt_dir data_dir name wd) = true.
Proof.
  unfold with_gt_dir.
  destruct (path_exists (gt_dir data_dir name) wd) eqn:Hex.
  - repeat split; [set_solver..|done].
  - repeat split; [simpl; set_solver..|].
    unfold path_exists, makedirs. simpl.
    rewrite bool_decide_eq_true_2 by set_solver. done.
Qed.

Section SplitFacts.
Context `{SsdUtils}.

Lemma encode_all_app anchors arr nc l1 l2 :
  encode_all anchors arr nc (l1 ++ l2)
  = (vs1 ← encode_all anchors arr nc l1;
     vs2 ← encode_all anchors arr nc l2;
     Ok (vs1 ++ vs2)).
Proof.
  induction l1 as [|s l1 IH]; simpl.
  - by destruct (encode_all anchors arr nc l2).
  - destruct (encode_sample anchors arr nc s) as [v|e]; simpl; [|done].
    rewrite IH.
    destruct (encode_all anchors arr nc l1) as [vs1|e]; simpl; [|done].
    by destruct (encode_all anchors arr nc l2).
Qed.

(** X9.  [compute_gt] returns only when every sample could be encoded: one
    sample that cannot be, anywhere in the list, keeps the call from
    returning. *)
Theorem unencodable_sample_stops_compute_gt
    (data_dir : string) (samples : list Sample) (anchors : list Anchor)
    (nc : nat) (name : string) (wd : World) (s : Sample) (e : exn) :
  s ∈ samples →
  encode_sample anchors (anchors2array anchors img_size) nc s = Raise e →
  ∃ e', compute_gt data_dir samples anchors nc name wd = Raise e'.
Proof.
  intros Hin Hs. rewrite compute_gt_eq.
  destruct (encode_all _ _ _ _) as [vecs|e'] eqn:Hall; simpl; [|by eexists].
  apply encode_all_Forall2 in Hall.
  apply list_elem_of_lookup in Hin as [i Hi].
  destruct (Forall2_lookup_l _ _ _ _ _ Hall Hi) as (v & _ & Hv). congruence.
Qed.

(** No file is removed by [compute_gt]. *)
Lemma compute_gt_keeps_paths data_dir samples anchors nc name wd wd' path :
  compute_gt data_dir samples anchors nc name wd = Ok wd' →
  is_Some (files wd !! path) → is_Some (files wd' !! path).
Proof.
  intros (vecs & Hvecs & ->)%compute_gt_inv Hsome.
  destruct (with_gt_dir_files data_dir name wd) as (Hf & _).
  destruct (decide (path = samples_pkl data_dir name)) as [->|Hne].
  { simpl. rewrite lookup_insert_eq. by eexists. }
  simpl. rewrite lookup_insert_ne by done.
  destruct (save_all_files_cases data_dir name (zip samples vecs) path)
    as [[v Hv]|[_ Hsame]].
  - rewrite Hv. by eexists.
  - by rewrite Hsame, Hf.
Qed.

(** The directory of the split exists when [compute_gt] has returned. *)
Lemma compute_gt_dir_exists data_dir samples anchors nc name wd wd' :
  compute_gt data_dir samples anchors nc name wd = Ok wd' →
  path_exists (gt_dir data_dir name) wd' = true.
Proof.
  intros Hgt. pose proof Hgt as (vecs & Hvecs & Hwd')%compute_gt_inv.
  destruct (with_gt_dir_files data_dir name wd) as (Hf & _ & _ & Hex).
  unfold path_exists in *.
  apply orb_true_iff in Hex as [Hd|Hfile]; apply orb_true_iff.
  - left. rewrite Hwd'. simpl. by rewrite save_all_dirs.
  - right. apply bool_decide_eq_true_2. apply bool_decide_eq_true_1 in Hfile.
    rewrite Hf in Hfile. by eapply compute_gt_keeps_paths.
Qed.

(** X10.  When [compute_gt] returns, every path other than the vector
    files of its samples and the manifest keeps its file, no file and no
    directory has disappeared, the directory of the split exists, and the
    effects performed before remain. *)
Theorem compute_gt_touches_its_outputs_only
    (data_dir : string) (samples : list Sample) (anchors : list Anchor)
    (nc : nat) (name : string) (wd wd' : World) :
  compute_gt data_dir samples anchors nc name wd = Ok wd' →
  (∀ path, path ≠ samples_pkl data_dir name →
           (∀ s, s ∈ samples → gt_path data_dir name s ≠ path) →
           files wd' !! path = files wd !! path) ∧
  (∀ path, is_Some (files wd !! path) → is_Some (files wd' !! path)) ∧
  dirs wd ⊆ dirs wd' ∧
  path_exists (gt_dir data_dir name) wd' = true ∧
  trace wd `prefix_of` trace wd'.
Proof.
  intros Hgt.
  pose proof (compute_gt_dir_exists _ _ _ _ _ _ _ Hgt) as Hex.
  pose proof Hgt as (vecs & Hvecs & ->)%compute_gt_inv.
  destruct (with_gt_dir_files data_dir name wd) as (Hf & Hd1 & Hd2 & _).
  split; [|split; [|split; [|split]]].
  - intros path Hne Hpaths. simpl. rewrite lookup_insert_ne by done.
    rewrite save_all_files_other; [by rewrite Hf|].
    apply list.Forall_forall. intros [s v] Hin. simpl. apply Hpaths.
    apply list_elem_of_lookup in Hin as [i Hi].
    rewrite lookup_zip_with in Hi.
    apply bind_Some in Hi as (s' & Hs' & Hi).
    apply bind_Some in Hi as (v' & _ & Hi). injection Hi as <- <-.
    by eapply list_elem_of_lookup_2.
  - intros path. by eapply compute_gt_keeps_paths.
  - simpl. by rewrite save_all_dirs.
  - exact Hex.
  - simpl. rewrite save_all_trace.
    apply prefix_app_r, prefix_app_r.
    unfold with_gt_dir. destruct (path_exists _ wd); [done|].
    simpl. by apply prefix_app_r.
Qed.

(** X11.  Running [compute_gt] again on the world it left, with the same
    arguments, returns and changes neither the files nor the directories:
    the directory is not created again, every vector and the manifest are
    written again with the same content. *)
Theorem compute_gt_again_changes_no_file
    (data_dir : string) (samples : list Sample) (anchors : list Anchor)
    (nc : nat) (name : string) (wd wd' : World) :
  compute_gt data_dir samples anchors nc name wd = Ok wd' →
  ∃ vecs wd'',
    compute_gt data_dir samples anchors nc name wd' = Ok wd'' ∧
    files wd'' = files wd' ∧ dirs wd'' = dirs wd' ∧
    trace wd'' = trace wd' ++ gt_events data_dir name samples vecs.
Proof.
  intros Hgt. pose proof Hgt as (vecs & Hvecs & Hwd')%compute_gt_inv.
  exists vecs.
  assert (with_gt_dir data_dir name wd' = wd') as Hdir.
  { unfold with_gt_dir.
    enough (path_exists (gt_dir data_dir name) wd' = true) as -> by done.
    destruct (with_gt_dir_files data_dir name wd) as (_ & _ & _ & Hex).
    rewrite Hwd'. unfold path_exists in *. simpl.
    rewrite save_all_dirs.
    apply orb_true_iff in Hex as [Hd|Hf]; apply orb_true_iff.
    - by left.
    - right. apply bool_decide_eq_true_2. apply bool_decide_eq_true_1 in Hf.
      destruct (decide (gt_dir data_dir name = samples_pkl data_dir name))
        as [->|Hne]; [rewrite lookup_insert_eq; by eexists|].
      rewrite lookup_insert_ne by done.
      destruct (save_all_files_cases data_dir name (zip samples vecs)
                  (gt_dir data_dir name)) as [[v Hv]|[_ Hsame]].
      + rewrite Hv. by eexists.
      + by rewrite Hsame. }
  apply encode_all_Forall2 in Hvecs.
  eexists. rewrite compute_gt_eq, Hvecs, Hdir. simpl.
  split; [reflexivity|]. simpl. split; [|split].
  - apply map_eq. intros path.
    destruct (decide (path = samples_pkl data_dir name)) as [->|Hne].
    { rewrite lookup_insert_eq, Hwd'. simpl. by rewrite lookup_insert_eq. }
    rewrite lookup_insert_ne by done.
    destruct (save_all_files_cases data_dir name (zip samples vecs) path)
      as [[v Hv]|[_ Hsame]].
    + rewrite Hv, Hwd'. simpl. by rewrite lookup_insert_ne, Hv.
    + by rewrite Hsame.
  - by rewrite save_all_dirs.
  - rewrite save_all_trace. unfold gt_events. by rewrite <-app_assoc.
Qed.

End SplitFacts.

(** ** [annotate] *)

Lemma colour_boxes_Some colors bs l :
  colour_boxes colors bs = Some l ↔
  l.*1 = bs ∧ Forall (fun d => colors !! label d.1 = Some d.2) l.
Proof.
  revert l. induction bs as [|b bs IH]; intros l; simpl.
  - split.
    + intros [= <-]. split; [done|constructor].
    + intros [Hl _]. by apply fmap_nil_inv in Hl as ->.
  - split.
    + destruct (colors !! label b) as [c|] eqn:Hc; [|done].
      destruct (colour_boxes colors bs) as [l'|] eqn:Hl'; [|done].
      intros [= <-]. destruct (proj1 (IH l') eq_refl) as [<- Hall].
      split; [done|]. by constructor.
    + intros [Hl Hall]. destruct l as [|[b' c] l]; [done|].
      simpl in Hl. injection Hl as -> Hl.
      apply list.Forall_cons in Hall as [Hc Hall]. simpl in Hc. rewrite Hc.
      by rewrite (proj2 (IH l) (conj Hl Hall)).
Qed.

Lemma colour_boxes_is_Some colors bs :
  is_Some (colour_boxes colors bs) ↔
  Forall (fun b => is_Some (colors !! label b)) bs.
Proof.
  induction bs as [|b bs IH]; simpl.
  - split; [constructor|by eexists].
  - split.
    + destruct (colors !! label b) as [c|] eqn:Hc; [|by intros [? ?]].
      destruct (colour_boxes colors bs) as [l|]; [|by intros [? ?]].
      intros _. constructor; [by rewrite Hc|]. apply IH. by eexists.
    + intros [[c Hc] [l Hl]%IH]%list.Forall_cons. rewrite Hc, Hl. by eexists.
Qed.

(** The image of a sample: its file with the boxes drawn in order, or
    KeyError. *)
Lemma annotated_image_eq colors sample :
  annotated_image colors sample =
    match colour_boxes colors (boxes sample) with
    | Some l => Ok (mk_Img (filename sample) l)
    | None => Raise key_error
    end.
Proof.
  unfold annotated_image.
  enough (∀ bs acc,
    for_each bs (draw_step colors) (mk_Img (filename sample) acc) =
    match colour_boxes colors bs with
    | Some l => Ok (mk_Img (filename sample) (acc ++ l))
    | None => Raise key_error
    end) as Hgen by apply (Hgen _ []).
  unfold draw_step.
  induction bs as [|b bs IH]; intros acc; simpl.
  - by rewrite app_nil_r.
  - destruct (colors !! label b) as [c|]; simpl; [|done].
    rewrite IH. destruct (colour_boxes colors bs) as [l|]; [|done].
    by rewrite <-app_assoc.
Qed.

Lemma write_images_snoc data_dir name l si wd :
  write_images data_dir name (l ++ [si]) wd
  = imwrite (annotated_path data_dir name si.1) si.2
            (write_images data_dir name l wd).
Proof. unfold write_images. by rewrite foldl_app. Qed.

Lemma write_images_trace data_dir name l wd :
  trace (write_images data_dir name l wd)
  = trace wd ++
    ((fun si => ImWrite (annotated_path data_dir name si.1) si.2) <$> l).
Proof.
  induction l as [|si l IH] using rev_ind.
  - simpl. by rewrite app_nil_r.
  - rewrite write_images_snoc, fmap_app. simpl. rewrite IH.
    by rewrite <-app_assoc.
Qed.

Lemma write_images_dirs data_dir name l wd :
  dirs (write_images data_dir name l wd) = dirs wd.
Proof.
  induction l as [|si l IH] using rev_ind; [done|].
  by rewrite write_images_snoc.
Qed.

Lemma write_images_files_other data_dir name l wd path :
  Forall (fun si => annotated_path data_dir name si.1 ≠ path) l →
  files (write_images data_dir name l wd) !! path = files wd !! path.
Proof.
  induction l as [|si l IH] using rev_ind; [done|].
  intros [Hl Hsi%Forall_inv]%Forall_app.
  rewrite write_images_snoc. simpl. rewrite lookup_insert_ne by done.
  by apply IH.
Qed.

Lemma annotate_all_Forall2 colors samples imgs :
  annotate_all colors samples = Ok imgs ↔
  Forall2 (fun s img => annotated_image colors s = Ok img) samples imgs.
Proof.
  revert imgs. induction samples as [|s samples IH]; intros imgs; simpl.
  - split; [by intros [= <-]; constructor|by intros ->%Forall2_nil_inv_l].
  - split.
    + destruct (annotated_image colors s) as [img|e] eqn:Hs; [simpl|done].
      destruct (annotate_all colors samples) as [imgs'|e] eqn:His; [simpl|done].
      intros [= <-]. constructor; [done|]. by apply IH.
    + intros (img & imgs' & Himg & His & ->)%Forall2_cons_inv_l.
      rewrite Himg. simpl. apply IH in His. by rewrite His.
Qed.

(** [annotate] draws every sample, then the images are written in order. *)
Lemma annotate_eq data_dir samples colors name wd :
  annotate data_dir samples colors name wd =
    (imgs ← annotate_all colors samples;
     Ok (write_images data_dir name (zip samples imgs)
           (with_annotated_dir data_dir name wd))).
Proof.
  unfold annotate.
  change (if path_exists _ wd then wd else _)
    with (with_annotated_dir data_dir name wd).
  generalize (with_annotated_dir data_dir name wd) as wd0.
  induction samples as [|s samples IH]; intros wd0; simpl; [done|].
  change (for_each (boxes s) _ (mk_Img (filename s) []))
    with (annotated_image colors s).
  destruct (annotated_image colors s) as [img|e]; simpl; [|done].
  rewrite IH. by destruct (annotate_all colors samples) as [imgs|e].
Qed.

(** Drawing returns exactly when every label has a colour. *)
Lemma annotate_all_cases colors samples :
  match annotate_all colors samples with
  | Ok _ => annotatable colors samples
  | Raise e => e = key_error ∧ ¬ annotatable colors samples
  end.
Proof.
  unfold annotatable. induction samples as [|s samples IH]; simpl.
  - constructor.
  - rewrite annotated_image_eq.
    destruct (colour_boxes colors (boxes s)) as [l|] eqn:Hl; simpl.
    + assert (Forall (fun b => is_Some (colors !! label b)) (boxes s)) as Hs.
      { apply colour_boxes_is_Some. by eexists. }
      destruct (annotate_all colors samples) as [imgs|e]; simpl.
      * by constructor.
      * destruct IH as [-> Hnot]. split; [done|].
        intros [_ Hrest]%list.Forall_cons. by apply Hnot.
    + split; [done|]. intros [Hs _]%list.Forall_cons.
      apply colour_boxes_is_Some in Hs as [l' Hl']. congruence.
Qed.

(** X12.  [annotate] returns only when every label of every box of every
    sample has a colour in the dictionary. *)
Theorem annotate_needs_a_colour_for_every_label
    (data_dir : string) (samples : list Sample) (colors : gmap string Color)
    (name : string) (wd wd' : World) :
  annotate data_dir samples colors name wd = Ok wd' →
  annotatable colors samples.
Proof.
  rewrite annotate_eq.
  pose proof (annotate_all_cases colors samples) as Hall.
  by destruct (annotate_all colors samples).
Qed.

(** No file is removed by the writes of the images. *)
Lemma write_images_keeps_paths data_dir name l wd path :
  is_Some (files wd !! path) →
  is_Some (files (write_images data_dir name l wd) !! path).
Proof.
  induction l as [|si l IH] using rev_ind; [done|].
  intros Hsome. rewrite write_images_snoc. simpl.
  destruct (decide (annotated_path data_dir name si.1 = path)) as [->|Hne].
  - rewrite lookup_insert_eq. by eexists.
  - rewrite lookup_insert_ne by done. by apply IH.
Qed.

(** X13.  When [annotate] returns it has written one image per sample, in
    the order of the samples, at [<data_dir>/annotated/<split>/<basename>];
    the image is the file of the sample with every box of the sample drawn,
    in order, in the colour of its label.  The directory of the split
    exists, no directory has disappeared, and every other path keeps its
    file. *)
Theorem annotate_writes_one_image_per_sample
    (data_dir : string) (samples : list Sample) (colors : gmap string Color)
    (name : string) (wd wd' : World) :
  annotate data_dir samples colors name wd = Ok wd' →
  ∃ imgs,
    Forall2 (fun s img =>
               img_src img = filename s ∧ (drawn img).*1 = boxes s ∧
               Forall (fun d => colors !! label d.1 = Some d.2) (drawn img))
            samples imgs ∧
    trace wd' = trace (with_annotated_dir data_dir name wd) ++
                image_events data_dir name samples imgs ∧
    dirs wd ⊆ dirs wd' ∧
    path_exists (annotated_dir data_dir name) wd' = true ∧
    (∀ s, annotated_path data_dir name s
          = data_dir +:+ "/annotated/" +:+ strip name +:+ "/" +:+
            basename (filename s)) ∧
    (∀ path, (∀ s, s ∈ samples → annotated_path data_dir name s ≠ path) →
             files wd' !! path = files wd !! path).
Proof.
  rewrite annotate_eq.
  destruct (annotate_all colors samples) as [imgs|e] eqn:Hall; simpl; [|done].
  intros [= <-]. exists imgs. apply annotate_all_Forall2 in Hall.
  split; [|split; [|split; [|split; [|split]]]].
  - eapply list.Forall2_impl; [exact Hall|]. intros s img Himg. simpl in Himg.
    rewrite annotated_image_eq in Himg.
    destruct (colour_boxes colors (boxes s)) as [l|] eqn:Hl; [|done].
    injection Himg as <-. simpl. split; [done|].
    by apply colour_boxes_Some.
  - apply write_images_trace.
  - rewrite write_images_dirs. unfold with_annotated_dir.
    destruct (path_exists _ wd); [done|]. simpl. set_solver.
  - unfold path_exists. rewrite write_images_dirs. apply orb_true_iff.
    unfold with_annotated_dir.
    destruct (path_exists (annotated_dir data_dir name) wd) eqn:Hex.
    + unfold path_exists in Hex. apply orb_true_iff in Hex as [Hd|Hf].
      * by left.
      * right. apply bool_decide_eq_true_2. apply bool_decide_eq_true_1 in Hf.
        by apply write_images_keeps_paths.
    + left. apply bool_decide_eq_true_2. simpl. set_solver.
  - intros s. unfold annotated_path, annotated_dir.
    by rewrite !string_app_assoc.
  - intros path Hpaths. rewrite write_images_files_other.
    + unfold with_annotated_dir. by destruct (path_exists _ wd).
    + apply list.Forall_forall. intros [s img] Hin. simpl. apply Hpaths.
      apply list_elem_of_lookup in Hin as [i Hi].
      rewrite lookup_zip_with in Hi.
      apply bind_Some in Hi as (s' & Hs' & Hi).
      apply bind_Some in Hi as (v' & _ & Hi). injection Hi as <- <-.
      by eapply list_elem_of_lookup_2.
Qed.

(** ** The writes of [main] *)

Lemma filter_file_write_images data_dir name samples imgs :
  filter (fun ev => is_file_write ev = true)
         (image_events data_dir name samples imgs)
  = image_events data_dir name samples imgs.
Proof.
  unfold image_events. induction (zip samples imgs) as [|si l IH]; [done|].
  rewrite fmap_cons, filter_cons_True by done. by rewrite IH.
Qed.

Lemma filter_file_write_gt data_dir name samples vecs :
  filter (fun ev => is_file_write ev = true)
         (gt_events data_dir name samples vecs)
  = gt_events data_dir name samples vecs.
Proof.
  unfold gt_events. rewrite list.filter_app.
  f_equal. induction (zip samples vecs) as [|sv l IH]; [done|].
  rewrite fmap_cons, filter_cons_True by done. by rewrite IH.
Qed.

Lemma annotate_writes data_dir samples colors name wd wd' :
  annotate data_dir samples colors name wd = Ok wd' →
  ∃ imgs evs,
    annotate_all colors samples = Ok imgs ∧
    trace wd' = trace wd ++ evs ∧
    filter (fun ev => is_file_write ev = true) evs
    = image_events data_dir name samples imgs.
Proof.
  rewrite annotate_eq.
  destruct (annotate_all colors samples) as [imgs|e]; simpl; [|done].
  intros [= <-]. exists imgs. rewrite write_images_trace.
  unfold with_annotated_dir. destruct (path_exists _ wd).
  - eexists. split; [done|]. split; [reflexivity|].
    apply filter_file_write_images.
  - simpl. eexists. split; [done|]. split; [by rewrite <-app_assoc|].
    simpl. rewrite filter_cons_False by done.
    apply filter_file_write_images.
Qed.

Section MainWrites.
Context `{SsdUtils} `{DataSource}.

Lemma compute_gt_writes data_dir samples anchors nc name wd wd' :
  compute_gt data_dir samples anchors nc name wd = Ok wd' →
  ∃ vecs evs,
    encode_all anchors (anchors2array anchors img_size) nc samples = Ok vecs ∧
    trace wd' = trace wd ++ evs ∧
    filter (fun ev => is_file_write ev = true) evs
    = gt_events data_dir name samples vecs.
Proof.
  rewrite compute_gt_eq.
  destruct (encode_all _ _ _ samples) as [vecs|e]; simpl; [|done].
  intros [= <-]. exists vecs. simpl. rewrite save_all_trace.
  unfold with_gt_dir. destruct (path_exists _ wd).
  - eexists. split; [done|]. split; [by rewrite <-app_assoc|].
    apply filter_file_write_gt.
  - simpl. eexists. split; [done|]. split; [by rewrite <-!app_assoc|].
    simpl. rewrite filter_cons_False by done.
    apply filter_file_write_gt.
Qed.

(** What [main] has printed when the data source is loaded. *)
Lemma loaded_trace args source wd :
  ∃ evs,
    trace (print [VStr "[i] # classes:            ";
                  VInt (Z.of_nat (num_classes source))]
            (print [VStr "[i] # testing samples:    ";
                    VInt (Z.of_nat (num_test source))]
            (print [VStr "[i] # validation samples: ";
                    VInt (Z.of_nat (num_valid source))]
            (print [VStr "[i] # training samples:   ";
                    VInt (Z.of_nat (num_train source))]
               (banner args wd)))))
    = trace wd ++ evs ∧
    filter (fun ev => is_file_write ev = true) evs = [].
Proof.
  eexists. split.
  - unfold banner, print. simpl. rewrite <-!app_assoc. reflexivity.
  - reflexivity.
Qed.

(** X14.  When the ground truth is computed and [main] returns, the file
    [<data_dir>/training-data.pkl] holds the preset named on the command
    line and the class count, the colours and the two label maps of the
    loaded data source. *)
Theorem main_stores_the_dataset_information
    (args : Args) (wd wd' : World) (code : Z) (source : Source) :
  load_source args = Ok source →
  args_compute_gt args = true →
  main args wd = Ok (wd', code) →
  files wd' !! (args_data_dir args +:+ "/training-data.pkl")
  = Some (TrainingDataPkl
            (mk_TrainingData (get_preset_by_name (args_preset args))
               (num_classes source) (colors source) (lid2name source)
               (lname2id source))).
Proof.
  intros Hload Hflag. unfold main. rewrite Hload, Hflag. cbv zeta.
  destruct (if args_annotate args then _ else _) as [wd1|e1]; simpl; [|done].
  destruct (compute_gt _ (train_samples source) _ _ "train" _)
    as [wd2|e2]; simpl; [|done].
  destruct (compute_gt _ (valid_samples source) _ _ "valid" _)
    as [wd3|e3]; simpl; [|done].
  intros [= <- _]. simpl. apply lookup_insert_eq.
Qed.

(** X15.  The files [main] writes when the data source is loaded, in
    order: with [--annotate] the images of the training, the validation
    and the test samples; then with [--compute-gt] the vectors and the
    manifest of the training samples, those of the validation samples, and
    the dataset information.  No vector and no manifest is written for the
    test samples, and without the two switches nothing is written. *)
Theorem main_writes_in_order
    (args : Args) (wd wd' : World) (code : Z) (source : Source) :
  load_source args = Ok source →
  main args wd = Ok (wd', code) →
  ∃ evs imgs_train imgs_valid imgs_test vecs_train vecs_valid,
    trace wd' = trace wd ++ evs ∧
    (args_annotate args = true →
     annotate_all (colors source) (train_samples source) = Ok imgs_train ∧
     annotate_all (colors source) (valid_samples source) = Ok imgs_valid ∧
     annotate_all (colors source) (test_samples source) = Ok imgs_test) ∧
    (args_compute_gt args = true →
     encode_all (get_anchors_for_preset (get_preset_by_name (args_preset args)))
       (anchors2array
          (get_anchors_for_preset (get_preset_by_name (args_preset args)))
          img_size)
       (num_classes source) (train_samples source) = Ok vecs_train ∧
     encode_all (get_anchors_for_preset (get_preset_by_name (args_preset args)))
       (anchors2array
          (get_anchors_for_preset (get_preset_by_name (args_preset args)))
          img_size)
       (num_classes source) (valid_samples source) = Ok vecs_valid) ∧
    filter (fun ev => is_file_write ev = true) evs =
      (if args_annotate args then
         image_events (args_data_dir args) "train" (train_samples source)
           imgs_train ++
         image_events (args_data_dir args) "valid" (valid_samples source)
           imgs_valid ++
         image_events (args_data_dir args) "test " (test_samples source)
           imgs_test
       else []) ++
      (if args_compute_gt args then
         gt_events (args_data_dir args) "train" (train_samples source)
           vecs_train ++
         gt_events (args_data_dir args) "valid" (valid_samples source)
           vecs_valid ++
         [PickleDump (args_data_dir args +:+ "/training-data.pkl")
            (TrainingDataPkl
               (mk_TrainingData (get_preset_by_name (args_preset args))
                  (num_classes source) (colors source) (lid2name source)
                  (lname2id source)))]
       else []).
Proof.
  intros Hload. unfold main. rewrite Hload. cbv zeta.
  destruct (loaded_trace args source wd) as (evs0 & Htr0 & Hf0).
  revert Htr0. generalize (print [VStr "[i] # classes:            ";
                  VInt (Z.of_nat (num_classes source))]
            (print [VStr "[i] # testing samples:    ";
                    VInt (Z.of_nat (num_test source))]
            (print [VStr "[i] # validation samples: ";
                    VInt (Z.of_nat (num_valid source))]
            (print [VStr "[i] # training samples:   ";
                    VInt (Z.of_nat (num_train source))]
               (banner args wd))))) as wd0.
  intros wd0 Htr0.
  (* the annotation *)
  assert (∀ wd1,
    (if args_annotate args then
       wd ← annotate (args_data_dir args) (train_samples source)
              (colors source) "train"
              (print [VStr "[i] Annotating samples..."] wd0);
       wd ← annotate (args_data_dir args) (valid_samples source)
              (colors source) "valid" wd;
       annotate (args_data_dir args) (test_samples source)
         (colors source) "test " wd
     else Ok wd0) = Ok wd1 →
    ∃ evs1 it iv is_,
      trace wd1 = trace wd0 ++ evs1 ∧
      (args_annotate args = true →
       annotate_all (colors source) (train_samples source) = Ok it ∧
       annotate_all (colors source) (valid_samples source) = Ok iv ∧
       annotate_all (colors source) (test_samples source) = Ok is_) ∧
      filter (fun ev => is_file_write ev = true) evs1 =
        (if args_annotate args then
           image_events (args_data_dir args) "train" (train_samples source)
             it ++
           image_events (args_data_dir args) "valid" (valid_samples source)
             iv ++
           image_events (args_data_dir args) "test " (test_samples source)
             is_
         else [])) as Hann.
  { intros wd1. destruct (args_annotate args).
    - destruct (annotate _ (train_samples source) _ "train" _)
        as [wa|e] eqn:Ha; simpl; [|done].
      destruct (annotate _ (valid_samples source) _ "valid" _)
        as [wb|e] eqn:Hb; simpl; [|done].
      intros Hc.
      apply annotate_writes in Ha as (it & ea & Hit & Hta & Hfa).
      apply annotate_writes in Hb as (iv & eb & Hiv & Htb & Hfb).
      apply annotate_writes in Hc as (is_ & ec & His & Htc & Hfc).
      exists ([Print [VStr "[i] Annotating samples..."]] ++ ea ++ eb ++ ec),
        it, iv, is_.
      split; [|split; [done|]].
      + rewrite Htc, Htb, Hta. simpl. by rewrite <-!app_assoc.
      + rewrite !list.filter_app, Hfa, Hfb, Hfc. done.
    - intros [= <-]. exists [], [], [], [].
      split; [by rewrite app_nil_r|]. split; [done|done]. }
  destruct (if args_annotate args then _ else _) as [wd1|e1] eqn:Hphase1;
    simpl; [|done].
  destruct (Hann wd1 eq_refl) as (evs1 & it & iv & is_ & Htr1 & Hok1 & Hf1).
  (* the ground truth *)
  destruct (args_compute_gt args).
  - destruct (compute_gt _ (train_samples source) _ _ "train" _)
      as [wa|e] eqn:Ha; simpl; [|done].
    destruct (compute_gt _ (valid_samples source) _ _ "valid" _)
      as [wb|e] eqn:Hb; simpl; [|done].
    intros [= <- _].
    apply compute_gt_writes in Ha as (vt & ea & Hvt & Hta & Hfa).
    apply compute_gt_writes in Hb as (vv & eb & Hvv & Htb & Hfb).
    eexists (evs0 ++ evs1 ++
             [Print [VStr "[i] Computing the ground truth..."]] ++ ea ++ eb ++
             [PickleDump _ _]), it, iv, is_, vt, vv.
    split; [|split; [done|split; [done|]]].
    + simpl. rewrite Htb, Hta. simpl. rewrite Htr1, Htr0.
      by rewrite <-!app_assoc.
    + rewrite !list.filter_app, Hf0, Hf1, Hfa, Hfb. simpl.
      by rewrite filter_cons_True by done.
  - intros [= <- _].
    exists (evs0 ++ evs1), it, iv, is_, [], [].
    split; [|split; [done|split; [done|]]].
    + rewrite Htr1, Htr0. by rewrite <-app_assoc.
    + rewrite list.filter_app, Hf0, Hf1. by rewrite app_nil_r.
Qed.

End MainWrites.

(** ** The place of the files *)

Lemma has_slash_app s t :
  has_slash (s +:+ t) = has_slash s || has_slash t.
Proof.
  induction s as [|c s IH]; [done|].
  change (String c s +:+ t) with (String c (s +:+ t)). simpl.
  rewrite IH. by rewrite orb_assoc.
Qed.

Lemma basename_no_slash s : has_slash (basename s) = false.
Proof.
  induction s as [|c s IH]; [done|]. simpl.
  destruct (bool_decide (c = "/"%char) || has_slash s) eqn:Hc; [done|].
  simpl. apply orb_false_iff in Hc as [-> ->]. done.
Qed.

Section PlaceOfVectors.
Context `{SsdUtils}.

(** X16.  Every vector file a returned [compute_gt] has saved lies directly
    in the directory of the split: its path is that directory followed by a
    name that has no slash and is neither empty nor a dot name. *)
Theorem vector_files_lie_in_the_split_directory
    (data_dir : string) (samples : list Sample) (anchors : list Anchor)
    (nc : nat) (name : string) (wd wd' : World) :
  compute_gt data_dir samples anchors nc name wd = Ok wd' →
  ∃ evs,
    trace wd' = trace wd ++ evs ∧
    ∀ path vec, NpSave path vec ∈ evs →
      ∃ f, path = gt_dir data_dir name +:+ f ∧ has_slash f = false ∧
           f ≠ "" ∧ f ≠ "." ∧ f ≠ "..".
Proof.
  intros (vecs & evs & _ & Htrace & Hfilter)%compute_gt_writes.
  exists evs. split; [exact Htrace|]. intros path vec Hin.
  assert (NpSave path vec ∈ gt_events data_dir name samples vecs) as Hgt.
  { rewrite <-Hfilter. by apply list_elem_of_filter. }
  unfold gt_events in Hgt. apply elem_of_app in Hgt as [Hsave|Hdump].
  - apply list_elem_of_fmap in Hsave as ([s v] & [= -> ->] & _). simpl.
    exists (basename (filename s) +:+ ".npy"). split; [done|].
    split; [by rewrite has_slash_app, basename_no_slash|].
    repeat split; intros Heq; apply (f_equal last_char) in Heq;
      rewrite last_char_app in Heq; by vm_compute in Heq.
  - apply list_elem_of_singleton in Hdump. discriminate Hdump.
Qed.

End PlaceOfVectors.

(** ** The further properties on the reference instance *)

Section MoreReferenceRuns.
Import Reference Cases.
Local Existing Instance utils.
Local Existing Instance source.

Ltac by_computation := apply (bool_decide_unpack _); vm_compute; exact I.

Lemma encoded_array_shape_witness :
  encode two_good = Ok (vec_of (encode two_good)) ∧
  length (vec_of (encode two_good)) = 5%nat ∧
  ∀ i row, vec_of (encode two_good) !! i = Some row → length row = 7%nat.
Proof.
  assert (encode two_good = Ok (vec_of (encode two_good))) as Henc
    by (vm_compute; reflexivity).
  split; [exact Henc|].
  exact (encoded_array_shape grid grid_arr classes two_good _ Henc).
Defined.

Lemma rows_come_from_boxes_witness :
  encode overwritten = Ok (vec_of (encode overwritten)) ∧
  ∃ row,
    vec_of (encode overwritten) !! 0%nat = Some row ∧
    (row = background_row classes ∨
     ∃ box o anchor,
       box ∈ boxes overwritten ∧
       (o ∈ good (overlap_of grid_arr box) ∨
        o = best (overlap_of grid_arr box)) ∧
       idx o = 0%nat ∧ grid !! 0%nat = Some anchor ∧
       encoded_row classes box anchor = Ok row).
Proof.
  assert (encode overwritten = Ok (vec_of (encode overwritten))) as Henc
    by (vm_compute; reflexivity).
  split; [exact Henc|].
  exists (default [] (vec_of (encode overwritten) !! 0%nat)).
  assert (vec_of (encode overwritten) !! 0%nat
          = Some (default [] (vec_of (encode overwritten) !! 0%nat))) as Hrow
    by (vm_compute; reflexivity).
  split; [exact Hrow|].
  exact (rows_come_from_boxes grid grid_arr classes overwritten _ 0 _
           Henc Hrow).
Defined.

Lemma table_records_maximum_witness :
  (after_good two_good).1 !! 0%nat = Some (score (best_of full_cat)) ∧
  records_maximum (good_attempts grid_arr (boxes two_good)) 0
                  ((after_good two_good).1 !! 0%nat) ∧
  records_maximum (good_attempts grid_arr (boxes two_good)) 1
                  ((after_good two_good).1 !! 1%nat).
Proof.
  assert (good_pass grid classes
            (compute_overlaps grid_arr (boxes two_good)) (boxes two_good)
            (∅, init_vec (length grid) classes)
          = Ok ((after_good two_good).1, (after_good two_good).2)) as Hg
    by (vm_compute; reflexivity).
  assert (best_pass grid classes
            (compute_overlaps grid_arr (boxes two_good)) (boxes two_good)
            (∅, (after_good two_good).2)
          = Ok ((after_best two_good).1, (after_best two_good).2)) as Hb
    by (vm_compute; reflexivity).
  split; [by_computation|]. split.
  - exact (proj1 (table_records_maximum grid grid_arr classes (boxes two_good)
                    _ _ _ _ _ _ 0 Hg Hb)).
  - exact (proj1 (table_records_maximum grid grid_arr classes (boxes two_good)
                    _ _ _ _ _ _ 1 Hg Hb)).
Defined.

Lemma good_rows_survive_witness :
  encode two_good = Ok (vec_of (encode two_good)) ∧
  untouched (best_attempts grid_arr (boxes two_good)) 4 ∧
  ¬ untouched (good_attempts grid_arr (boxes two_good)) 4 ∧
  vec_of (encode two_good) !! 4%nat = (after_good two_good).2 !! 4%nat.
Proof.
  assert (encode two_good = Ok (vec_of (encode two_good))) as Henc
    by (vm_compute; reflexivity).
  assert (untouched (best_attempts grid_arr (boxes two_good)) 4) as Hun
    by by_computation.
  split; [exact Henc|]. split; [exact Hun|].
  split; [apply (bool_decide_unpack _); vm_compute; exact I|].
  apply (good_rows_survive grid grid_arr classes two_good _
           (after_good two_good).1 (after_good two_good).2 4 Henc);
    [vm_compute; reflexivity|exact Hun].
Defined.

Lemma label_outside_one_hot_witness :
  length (background_row classes) = (classes + 5)%nat ∧
  write_row mislabelled (mk_Anchor (q 1 4, q 1 4) half half) classes
    (background_row classes)
  = Ok (replicate 3 0%Qc ++
        loc_cells (compute_location mislabelled
                     (mk_Anchor (q 1 4, q 1 4) half half))) ∧
  write_row unlabelled (mk_Anchor (q 1 4, q 1 4) half half) classes
    (background_row classes) = Raise index_error.
Proof.
  assert (length (background_row classes) = (classes + 5)%nat) as Hlen
    by reflexivity.
  destruct (label_outside_one_hot mislabelled
              (mk_Anchor (q 1 4, q 1 4) half half) classes
              (background_row classes) Hlen) as (Hoff & _ & _).
  destruct (label_outside_one_hot unlabelled
              (mk_Anchor (q 1 4, q 1 4) half half) classes
              (background_row classes) Hlen) as (_ & _ & Hout).
  split; [exact Hlen|]. split.
  - apply Hoff. left. by_computation.
  - apply Hout. right. by_computation.
Defined.

Lemma encoding_returns_iff_indices_in_range_witness :
  labels_indexable classes (boxes two_good) ∧
  overlaps_ok (length grid) grid_arr (boxes two_good) ∧
  is_ok (encode two_good) ∧
  ¬ overlaps_ok 4 grid_arr (boxes two_good) ∧
  ¬ is_ok (encode_sample (take 4 grid) grid_arr classes two_good).
Proof.
  assert (labels_indexable classes (boxes two_good)) as Hl by by_computation.
  assert (overlaps_ok (length grid) grid_arr (boxes two_good)) as Ho
    by by_computation.
  assert (¬ overlaps_ok 4 grid_arr (boxes two_good)) as Hno
    by by_computation.
  split; [exact Hl|]. split; [exact Ho|]. split; [|split; [exact Hno|]].
  - exact (proj2 (encoding_returns_iff_indices_in_range grid grid_arr classes
                    two_good Hl) Ho).
  - intros Hok. apply Hno.
    exact (proj1 (encoding_returns_iff_indices_in_range (take 4 grid)
                    grid_arr classes two_good Hl) Hok).
Defined.

Lemma repeated_box_changes_nothing_witness :
  wide_dog ∈ [wide_dog; full_cat] ∧
  encode_sample grid grid_arr classes
    (mk_Sample "a.jpg" ([wide_dog; full_cat] ++ wide_dog :: [slim_dog])
               (mk_Size 500 375))
  = encode_sample grid grid_arr classes
      (mk_Sample "a.jpg" ([wide_dog; full_cat] ++ [slim_dog])
                 (mk_Size 500 375)).
Proof.
  assert (wide_dog ∈ [wide_dog; full_cat]) as Hin by by_computation.
  split; [exact Hin|].
  exact (repeated_box_changes_nothing grid grid_arr classes "a.jpg"
           (mk_Size 500 375) [wide_dog; full_cat] [slim_dog] wide_dog Hin).
Defined.

Lemma box_order_matters_through_ties_only_witness :
  boxes two_good ≡ₚ boxes two_good_swapped ∧
  tie_free (good_attempts grid_arr (boxes two_good)) ∧
  tie_free (best_attempts grid_arr (boxes two_good)) ∧
  vec_of (encode two_good) = vec_of (encode two_good_swapped) ∧
  ¬ tie_free (best_attempts grid_arr (boxes tied)).
Proof.
  assert (boxes two_good ≡ₚ boxes two_good_swapped) as Hperm
    by apply perm_swap.
  assert (tie_free (good_attempts grid_arr (boxes two_good))) as Hg
    by by_computation.
  assert (tie_free (best_attempts grid_arr (boxes two_good))) as Hb
    by by_computation.
  split; [exact Hperm|]. split; [exact Hg|]. split; [exact Hb|].
  split; [|by_computation].
  apply (box_order_matters_through_ties_only grid grid_arr classes
           two_good two_good_swapped _ _ Hperm Hg Hb);
    vm_compute; reflexivity.
Defined.

Lemma unencodable_sample_stops_compute_gt_witness :
  broken ∈ [two_good; broken; no_boxes] ∧
  encode broken = Raise index_error ∧
  ∃ e', compute_gt "pascal-voc" [two_good; broken; no_boxes] grid classes
          "train" empty_world = Raise e'.
Proof.
  assert (broken ∈ [two_good; broken; no_boxes]) as Hin by by_computation.
  assert (encode broken = Raise index_error) as Hbad
    by (vm_compute; reflexivity).
  split; [exact Hin|]. split; [exact Hbad|].
  exact (unencodable_sample_stops_compute_gt "pascal-voc"
           [two_good; broken; no_boxes] grid classes "train" empty_world
           broken index_error Hin Hbad).
Defined.

Lemma compute_gt_touches_its_outputs_only_witness :
  compute_gt "pascal-voc" [two_good; overwritten] grid classes "train"
    used_world = Ok after_train ∧
  files after_train !! "pascal-voc/readme.txt"
    = files used_world !! "pascal-voc/readme.txt" ∧
  path_exists "pascal-voc/ground_truth/train/" after_train = true ∧
  trace used_world `prefix_of` trace after_train.
Proof.
  assert (compute_gt "pascal-voc" [two_good; overwritten] grid classes
            "train" used_world = Ok after_train) as Hgt
    by (vm_compute; reflexivity).
  destruct (compute_gt_touches_its_outputs_only _ _ _ _ _ _ _ Hgt)
    as (Hframe & _ & _ & Hdirs & Htrace).
  split; [exact Hgt|]. split; [|split; [exact Hdirs|exact Htrace]].
  apply Hframe; [by vm_compute|].
  intros s Hs Heq.
  apply elem_of_cons in Hs as [->|Hs]; [by vm_compute in Heq|].
  apply list_elem_of_singleton in Hs as ->. by vm_compute in Heq.
Defined.

Lemma compute_gt_again_changes_no_file_witness :
  compute_gt "pascal-voc" [two_good; overwritten] grid classes "train"
    used_world = Ok after_train ∧
  ∃ wd'',
    compute_gt "pascal-voc" [two_good; overwritten] grid classes "train"
      after_train = Ok wd'' ∧
    files wd'' = files after_train ∧ dirs wd'' = dirs after_train.
Proof.
  assert (compute_gt "pascal-voc" [two_good; overwritten] grid classes
            "train" used_world = Ok after_train) as Hgt
    by (vm_compute; reflexivity).
  split; [exact Hgt|].
  destruct (compute_gt_again_changes_no_file _ _ _ _ _ _ _ Hgt)
    as (vecs & wd'' & Hagain & Hfiles & Hdirs & _).
  exists wd''. split; [exact Hagain|]. split; [exact Hfiles|exact Hdirs].
Defined.

Lemma vector_files_lie_in_the_split_directory_witness :
  compute_gt "pascal-voc" [two_good; overwritten] grid classes "train"
    used_world = Ok after_train ∧
  ∃ evs,
    trace after_train = trace used_world ++ evs ∧
    ∀ path vec, NpSave path vec ∈ evs →
      ∃ f, path = "pascal-voc/ground_truth/train/" +:+ f ∧
           has_slash f = false ∧ f ≠ "" ∧ f ≠ "." ∧ f ≠ "..".
Proof.
  assert (compute_gt "pascal-voc" [two_good; overwritten] grid classes
            "train" used_world = Ok after_train) as Hgt
    by (vm_compute; reflexivity).
  split; [exact Hgt|].
  exact (vector_files_lie_in_the_split_directory _ _ _ _ _ _ _ Hgt).
Defined.

Lemma annotate_needs_a_colour_for_every_label_witness :
  annotate "pascal-voc" [two_good; overwritten] (colors blank) "train"
    used_world = Ok after_annotate ∧
  annotatable (colors blank) [two_good; overwritten].
Proof.
  assert (annotate "pascal-voc" [two_good; overwritten] (colors blank)
            "train" used_world = Ok after_annotate) as Hann
    by (vm_compute; reflexivity).
  split; [exact Hann|].
  exact (annotate_needs_a_colour_for_every_label _ _ _ _ _ _ Hann).
Defined.

Lemma annotate_writes_one_image_per_sample_witness :
  annotate "pascal-voc" [two_good; overwritten] (colors blank) "train"
    used_world = Ok after_annotate ∧
  ∃ imgs,
    trace after_annotate
    = trace (with_annotated_dir "pascal-voc" "train" used_world) ++
      image_events "pascal-voc" "train" [two_good; overwritten] imgs ∧
    Forall2 (fun s img => img_src img = filename s ∧
                          (drawn img).*1 = boxes s)
            [two_good; overwritten] imgs.
Proof.
  assert (annotate "pascal-voc" [two_good; overwritten] (colors blank)
            "train" used_world = Ok after_annotate) as Hann
    by (vm_compute; reflexivity).
  split; [exact Hann|].
  destruct (annotate_writes_one_image_per_sample _ _ _ _ _ _ Hann)
    as (imgs & Himgs & Htrace & _).
  exists imgs. split; [exact Htrace|].
  eapply list.Forall2_impl; [exact Himgs|].
  intros s img (Hsrc & Hdrawn & _). split; [exact Hsrc|exact Hdrawn].
Defined.

Lemma main_stores_the_dataset_information_witness :
  load_source (args_for "pascal_voc" "pascal-voc") = Ok loaded ∧
  run_main (args_for "pascal_voc" "pascal-voc")
  = Ok (main_world (run_main (args_for "pascal_voc" "pascal-voc")), 0%Z) ∧
  files (main_world (run_main (args_for "pascal_voc" "pascal-voc")))
    !! "pascal-voc/training-data.pkl"
  = Some (TrainingDataPkl
            (mk_TrainingData (mk_Preset "vgg300" (mk_Size 300 300)) 2
               (colors blank) (lid2name blank) (lname2id blank))).
Proof.
  assert (load_source (args_for "pascal_voc" "pascal-voc") = Ok loaded)
    as Hload by (vm_compute; reflexivity).
  assert (run_main (args_for "pascal_voc" "pascal-voc")
          = Ok (main_world (run_main (args_for "pascal_voc" "pascal-voc")),
                0%Z)) as Hrun by (vm_compute; reflexivity).
  split; [exact Hload|]. split; [exact Hrun|].
  exact (main_stores_the_dataset_information
           (args_for "pascal_voc" "pascal-voc") empty_world _ 0 loaded
           Hload eq_refl Hrun).
Defined.

Lemma main_writes_in_order_witness :
  load_source (args_for "pascal_voc" "pascal-voc") = Ok loaded ∧
  ∃ evs,
    trace (main_world (run_main (args_for "pascal_voc" "pascal-voc")))
    = trace empty_world ++ evs ∧
    length (filter (fun ev => is_file_write ev = true) evs) = 10%nat.
Proof.
  assert (load_source (args_for "pascal_voc" "pascal-voc") = Ok loaded)
    as Hload by (vm_compute; reflexivity).
  assert (run_main (args_for "pascal_voc" "pascal-voc")
          = Ok (main_world (run_main (args_for "pascal_voc" "pascal-voc")),
                0%Z)) as Hrun by (vm_compute; reflexivity).
  split; [exact Hload|].
  destruct (main_writes_in_order (args_for "pascal_voc" "pascal-voc")
              empty_world _ 0 loaded Hload Hrun)
    as (evs & it & iv & is_ & vt & vv & Htrace & Hann & Hgt & Hfilter).
  exists evs. split; [exact Htrace|].
  destruct (Hann eq_refl) as (Hit & Hiv & His).
  destruct (Hgt eq_refl) as (Hvt & Hvv).
  rewrite Hfilter.
  apply annotate_all_Forall2, Forall2_length in Hit, Hiv, His.
  apply encode_all_Forall2, Forall2_length in Hvt, Hvv.
  destruct it as [|? [|? [|]]]; try discriminate Hit.
  destruct iv as [|? [|]]; try discriminate Hiv.
  destruct is_ as [|? [|]]; try discriminate His.
  destruct vt as [|? [|? [|]]]; try discriminate Hvt.
  destruct vv as [|? [|]]; try discriminate Hvv.
  reflexivity.
Defined.

End MoreReferenceRuns.

(** ** When [main] returns *)

Lemma annotatable_app colors l1 l2 :
  annotatable colors (l1 ++ l2) ↔
  annotatable colors l1 ∧ annotatable colors l2.
Proof. unfold annotatable. apply Forall_app. Qed.

(** The three annotations of [main]: the first label without colour, in
    the order training, validation, test, raises. *)
Lemma annotate_three data_dir colors tr va te wd :
  match (wd ← annotate data_dir tr colors "train" wd;
         wd ← annotate data_dir va colors "valid" wd;
         annotate data_dir te colors "test " wd) with
  | Ok _ => annotatable colors (tr ++ va ++ te)
  | Raise e => e = key_error ∧ ¬ annotatable colors (tr ++ va ++ te)
  end.
Proof.
  assert (∀ samples name wd0,
    match annotate data_dir samples colors name wd0 with
    | Ok _ => annotatable colors samples
    | Raise e => e = key_error ∧ ¬ annotatable colors samples
    end) as annotate_cases.
  { intros samples name wd0. rewrite annotate_eq.
    pose proof (annotate_all_cases colors samples) as Hall.
    by destruct (annotate_all colors samples). }
  pose proof (annotate_cases tr "train" wd) as Htr.
  destruct (annotate data_dir tr colors "train" wd) as [wd1|e]; simpl.
  - pose proof (annotate_cases va "valid" wd1) as Hva.
    destruct (annotate data_dir va colors "valid" wd1) as [wd2|e]; simpl.
    + pose proof (annotate_cases te "test " wd2) as Hte.
      destruct (annotate data_dir te colors "test " wd2) as [wd3|e].
      * by rewrite !annotatable_app.
      * destruct Hte as [-> Hnot]. split; [done|].
        rewrite !annotatable_app. tauto.
    + destruct Hva as [-> Hnot]. split; [done|].
      rewrite !annotatable_app. tauto.
  - destruct Htr as [-> Hnot]. split; [done|].
    rewrite !annotatable_app. tauto.
Qed.

Section MainReturnFacts.
Context `{SsdUtils} `{DataSource}.

(** The two ground truth computations of [main] raise what the encoding
    of the training samples followed by the validation samples raises. *)
Lemma compute_gt_two data_dir anchors nc tr va wd (k : World → World) :
  match (wd ← compute_gt data_dir tr anchors nc "train" wd;
         wd ← compute_gt data_dir va anchors nc "valid" wd;
         Ok (k wd)) with
  | Ok _ => is_ok (encode_all anchors (anchors2array anchors img_size) nc
                     (tr ++ va))
  | Raise e => encode_all anchors (anchors2array anchors img_size) nc
                 (tr ++ va) = Raise e
  end.
Proof.
  rewrite encode_all_app, compute_gt_eq.
  destruct (encode_all _ _ nc tr) as [vt|e]; simpl; [|done].
  rewrite compute_gt_eq.
  by destruct (encode_all _ _ nc va) as [vv|e]; simpl.
Qed.

(** Encoding all the samples returns only when each can be encoded. *)
Lemma encode_all_ok_inv anchors arr nc samples :
  is_ok (encode_all anchors arr nc samples) →
  Forall (fun s => is_ok (encode_sample anchors arr nc s)) samples.
Proof.
  induction samples as [|s samples IH]; simpl; [constructor|].
  destruct (encode_sample anchors arr nc s) as [v|e] eqn:Hs; simpl; [|done].
  destruct (encode_all anchors arr nc samples) as [vs|e]; simpl; [|done].
  intros _. constructor; [by rewrite Hs|by apply IH].
Qed.

(** X17.  With the data source loaded, [main] returns only when, with
    [--annotate], every label of the training, validation and test samples
    has a colour, and, with [--compute-gt], every training and every
    validation sample can be encoded.  Nothing is asked of the encoding of
    the test samples. *)
Theorem loaded_main_returns_only_when
    (args : Args) (wd wd' : World) (code : Z) (source : Source) :
  load_source args = Ok source →
  main args wd = Ok (wd', code) →
  (args_annotate args = true →
   annotatable (colors source)
     (train_samples source ++ valid_samples source ++
      test_samples source)) ∧
  (args_compute_gt args = true →
   encodable (get_anchors_for_preset (get_preset_by_name (args_preset args)))
     (num_classes source)
     (train_samples source ++ valid_samples source)).
Proof.
  intros Hload Hmain. unfold main in Hmain. rewrite Hload in Hmain.
  cbv zeta in Hmain.
  set (wd0 := print _ (print _ (print _ (print _ (banner args wd)))))
    in Hmain.
  clearbody wd0. split.
  - intros Hann. rewrite Hann in Hmain.
    pose proof (annotate_three (args_data_dir args) (colors source)
                  (train_samples source) (valid_samples source)
                  (test_samples source)
                  (print [VStr "[i] Annotating samples..."] wd0)) as Hthree.
    simpl in Hthree, Hmain.
    destruct (annotate _ (train_samples source) _ "train" _) as [wd1|e1];
      simpl in *; [|done].
    destruct (annotate _ (valid_samples source) _ "valid" _) as [wd2|e2];
      simpl in *; [|done].
    by destruct (annotate _ (test_samples source) _ "test " _) as [wd3|e3].
  - intros Hgt. rewrite Hgt in Hmain.
    destruct (if args_annotate args then _ else _) as [wd1|e1];
      simpl in Hmain; [|done].
    match type of Hmain with
    | context [compute_gt ?d ?tr ?an ?nc "train" ?w] =>
        pose proof (compute_gt_two d an nc tr (valid_samples source) w
          (pickle_dump (d +:+ "/training-data.pkl")
             (TrainingDataPkl
                (mk_TrainingData (get_preset_by_name (args_preset args))
                   (num_classes source) (colors source)
                   (lid2name source) (lname2id source))))) as Htwo
    end.
    simpl in Htwo.
    destruct (compute_gt _ (train_samples source) _ _ "train" _)
      as [wd2|e2]; simpl in *; [|done].
    destruct (compute_gt _ (valid_samples source) _ _ "valid" _)
      as [wd3|e3]; simpl in *; [|done].
    by apply encode_all_ok_inv.
Qed.

End MainReturnFacts.

Section MainReturns.
Import Reference Cases.
Local Existing Instance utils.
Local Existing Instance source.

Ltac by_computation := apply (bool_decide_unpack _); vm_compute; exact I.

Lemma loaded_main_returns_only_when_witness :
  load_source (args_for "pascal_voc" "pascal-voc") = Ok loaded ∧
  run_main (args_for "pascal_voc" "pascal-voc")
  = Ok (main_world (run_main (args_for "pascal_voc" "pascal-voc")), 0%Z) ∧
  annotatable (colors loaded)
    (train_samples loaded ++ valid_samples loaded ++ test_samples loaded) ∧
  encodable grid classes (train_samples loaded ++ valid_samples loaded).
Proof.
  assert (load_source (args_for "pascal_voc" "pascal-voc") = Ok loaded)
    as Hload by (vm_compute; reflexivity).
  assert (run_main (args_for "pascal_voc" "pascal-voc")
          = Ok (main_world (run_main (args_for "pascal_voc" "pascal-voc")),
                0%Z)) as Hrun by (vm_compute; reflexivity).
  split; [exact Hload|]. split; [exact Hrun|].
  destruct (loaded_main_returns_only_when
              (args_for "pascal_voc" "pascal-voc") empty_world _ 0 loaded
              Hload Hrun) as [Hann Hgt].
  split; [exact (Hann eq_refl)|exact (Hgt eq_refl)].
Defined.

End MainReturns.
